(** * PDFTurn: a shallow embedding of [run.py] and its specification

    [run.py] turns every sub-folder of [input/] into one PDF under [output/].
    The images of a folder are listed, put in natural-sort order, resized
    according to a resolution policy chosen once at the prompt, staged in the
    shared directory [temp_pdf_images/] and handed to [img2pdf].

    Modelling conventions.
    - A Python [str] is a Rocq [string]; a character is read as the Unicode
      code point of the same number, so the model covers the code points
      0..255.  On that range [str.isdigit] accepts the ASCII digits and the
      three superscript digits U+00B2, U+00B3 and U+00B9, while the regular
      expression [[0-9]] and [int()] accept the ASCII digits only.
    - Python integers are [Z]; paths are POSIX paths.  [int()] is the
      conversion without the bound on the number of digits of a literal that
      CPython has since version 3.11 ([sys.int_max_str_digits], 4300 unless
      it is changed or lifted): no component of a path is that long, and the
      statements on how the prompt reads an answer bound its length.
    - An exception is a value [Raise e] of the type [result].
    - The imaging and PDF libraries are described by a record [world]: it
      says what every input file decodes to, which library calls fail and
      in which mode a written file is stored.  The effect of a successful
      call on the size and mode of an image is written out.
    - The directories the program writes to are a [state]: the staging
      directory (a finite map from paths to staged images, or absent), the
      output directory, the console log and the list of [Image.open] calls.
      Directory listing, directory creation and opening a file for writing
      are taken to succeed. *)

From Stdlib Require Import ZArith String Ascii List Bool.
From Stdlib Require Import Sorting.Permutation Sorting.Sorted.
From Stdlib Require Import Structures.OrdersEx.
From stdpp Require Import gmap strings list.

Local Open Scope string_scope.
Local Open Scope Z_scope.

(** * Part I: the program *)

(** ** Exceptions *)

Inductive exn : Type :=
  | ValueError            (* int() on a bad literal, bad tuple unpacking *)
  | TypeError             (* [<] between an [int] and a [str] *)
  | EOFError              (* input() at end of input *)
  | IndexError            (* list index out of range *)
  | ImageError            (* any error raised by the imaging library *)
  | PdfError.             (* any error raised by img2pdf.convert *)

Inductive result (A : Type) : Type :=
  | Ok (a : A)
  | Raise (e : exn).

Arguments Ok {A} a.
Arguments Raise {A} e.

Definition rbind {A B : Type} (r : result A) (k : A -> result B) : result B :=
  match r with
  | Ok a => k a
  | Raise e => Raise e
  end.

Notation "x <-- r ; k" := (rbind r (fun x => k))
  (at level 20, r at level 100, k at level 200, only parsing).

Definition is_ok {A : Type} (r : result A) : bool :=
  match r with Ok _ => true | Raise _ => false end.

(** A comprehension [[f(c) for c in l]]: the calls are made from left to
    right and the first exception ends the evaluation. *)
Fixpoint rmap {A B : Type} (f : A -> result B) (l : list A) : result (list B) :=
  match l with
  | [] => Ok []
  | a :: l' => b <-- f a ; bs <-- rmap f l' ; Ok (b :: bs)
  end.

(** ** Characters and strings *)

Module PyStr.

Definition code (c : ascii) : N := N_of_ascii c.

(** The character class [[0-9]] of the regular expression. *)
Definition is_09 (c : ascii) : bool :=
  ((48 <=? code c) && (code c <=? 57))%N.

(** [str.isdigit] on one character: Numeric_Type Decimal or Digit. *)
Definition isdigit_char (c : ascii) : bool :=
  is_09 c || (code c =? 178)%N || (code c =? 179)%N || (code c =? 185)%N.

(** [str.isspace] on one character. *)
Definition isspace_char (c : ascii) : bool :=
  (((9 <=? code c) && (code c <=? 13)) || ((28 <=? code c) && (code c <=? 32))
   || (code c =? 133) || (code c =? 160))%N.

(** [str.lower] on one character. *)
Definition lower_char (c : ascii) : ascii :=
  if (((65 <=? code c) && (code c <=? 90))
      || ((192 <=? code c) && (code c <=? 222) && negb (code c =? 215)))%N
  then ascii_of_N (code c + 32)
  else c.

Fixpoint forallb_str (p : ascii -> bool) (s : string) : bool :=
  match s with
  | EmptyString => true
  | String c s' => p c && forallb_str p s'
  end.

Definition is_empty (s : string) : bool :=
  match s with EmptyString => true | String _ _ => false end.

(** [s.isdigit()]: at least one character, all of them digits. *)
Definition isdigit (s : string) : bool :=
  negb (is_empty s) && forallb_str isdigit_char s.

Fixpoint lower (s : string) : string :=
  match s with
  | EmptyString => EmptyString
  | String c s' => String (lower_char c) (lower s')
  end.

(** Removing the characters of a class at the left and at the right. *)
Fixpoint lstrip_by (sp : ascii -> bool) (s : string) : string :=
  match s with
  | EmptyString => EmptyString
  | String c s' => if sp c then lstrip_by sp s' else s
  end.

Fixpoint rstrip_by (sp : ascii -> bool) (s : string) : string :=
  match s with
  | EmptyString => EmptyString
  | String c s' =>
      let r := rstrip_by sp s' in
      if is_empty r && sp c then EmptyString else String c r
  end.

(** [s.strip()] *)
Definition lstrip (s : string) : string := lstrip_by isspace_char s.
Definition rstrip (s : string) : string := rstrip_by isspace_char s.
Definition strip (s : string) : string := rstrip (lstrip s).

(** [s.endswith(suf)] *)
Fixpoint endswith (s suf : string) : bool :=
  String.eqb s suf ||
  match s with
  | EmptyString => false
  | String _ s' => endswith s' suf
  end.

(** ["x" in s] for the one-character needle of [get_user_choice]. *)
Fixpoint contains_char (c : ascii) (s : string) : bool :=
  match s with
  | EmptyString => false
  | String d s' => Ascii.eqb c d || contains_char c s'
  end.

(** [s.split(c)] for a one-character separator: never the empty list. *)
Fixpoint split_char (c : ascii) (s : string) : list string :=
  match s with
  | EmptyString => [EmptyString]
  | String d s' =>
      if Ascii.eqb c d then EmptyString :: split_char c s'
      else match split_char c s' with
           | [] => [String d EmptyString]
           | p :: ps => String d p :: ps
           end
  end.

Definition digit_val (c : ascii) : Z := Z.of_N (code c) - 48.

(** The digits of an [int()] literal: ASCII digits, single underscores
    allowed between two digits. *)
Fixpoint parse_digits (acc : Z) (after_digit : bool) (s : string) : option Z :=
  match s with
  | EmptyString => if after_digit then Some acc else None
  | String c s' =>
      if is_09 c then parse_digits (10 * acc + digit_val c) true s'
      else if Ascii.eqb c "_" then
        (if after_digit then parse_digits acc false s' else None)
      else None
  end.

(** The white space [int()] allows around a literal: the ASCII white space
    and, of the other code points up to 255, U+0085 and U+00A0.  The
    separators U+001C to U+001F, which [str.strip] removes, are not part of
    it. *)
Definition int_space_char (c : ascii) : bool :=
  (((9 <=? code c) && (code c <=? 13)) || (code c =? 32)
   || (code c =? 133) || (code c =? 160))%N.

(** [int(s)] in base ten: surrounding white space, an optional sign,
    digits.  The bound on the number of digits is left out. *)
Definition int (s : string) : result Z :=
  let t := rstrip_by int_space_char (lstrip_by int_space_char s) in
  let signed :=
    match t with
    | EmptyString => None
    | String c r =>
        if Ascii.eqb c "+" then parse_digits 0 false r
        else if Ascii.eqb c "-" then option_map Z.opp (parse_digits 0 false r)
        else parse_digits 0 false t
    end in
  match signed with
  | Some z => Ok z
  | None => Raise ValueError
  end.

(** [re.split('([0-9]+)', s)]: the text before the first run of ASCII
    digits, then alternately a run and the text after it.  The list always
    starts and ends with a text, which may be empty. *)
Fixpoint re_split (s : string) : list string :=
  match s with
  | EmptyString => [EmptyString]
  | String c s' =>
      match re_split s' with
      | [] => [String c EmptyString]
      | t :: rest =>
          if is_09 c then
            match t, rest with
            | EmptyString, d :: rest' => EmptyString :: String c d :: rest'
            | _, _ => EmptyString :: String c EmptyString :: t :: rest
            end
          else String c t :: rest
      end
  end.

(** [os.path.join(a, b)] for a relative [b] and an [a] that does not end
    with the separator. *)
Definition join (a b : string) : string := a +:+ "/" +:+ b.

(** [os.path.basename(p)]: what follows the last separator. *)
Fixpoint basename (p : string) : string :=
  match p with
  | EmptyString => EmptyString
  | String c p' =>
      if contains_char "/" p then basename p' else p
  end.

End PyStr.

(** ** The natural-sort key (the [key=] lambda of line 83) *)

Inductive chunk : Type :=
  | CInt (n : Z)
  | CStr (s : string).

(** [int(c) if c.isdigit() else c] *)
Definition key_of_chunk (c : string) : result chunk :=
  if PyStr.isdigit c then n <-- PyStr.int c ; Ok (CInt n)
  else Ok (CStr c).

Definition natural_key (x : string) : result (list chunk) :=
  rmap key_of_chunk (PyStr.re_split x).

(** [==] between two elements of a key never raises. *)
Definition chunk_eqb (a b : chunk) : bool :=
  match a, b with
  | CInt m, CInt n => Z.eqb m n
  | CStr s, CStr t => String.eqb s t
  | _, _ => false
  end.

(** [<] between two elements of a key: integers by value, strings by code
    point, and a [TypeError] for one of each. *)
Definition chunk_lt (a b : chunk) : result bool :=
  match a, b with
  | CInt m, CInt n => Ok (Z.ltb m n)
  | CStr s, CStr t => Ok (String.ltb s t)
  | _, _ => Raise TypeError
  end.

(** [<] between two lists: the first pair of unequal elements decides, and a
    proper prefix is smaller. *)
Fixpoint key_lt (a b : list chunk) : result bool :=
  match a, b with
  | [], [] => Ok false
  | [], _ :: _ => Ok true
  | _ :: _, [] => Ok false
  | x :: a', y :: b' =>
      if chunk_eqb x y then key_lt a' b' else chunk_lt x y
  end.

(** ** [sorted(..., key=...)]

    [sorted] first computes the key of every element, from left to right, and
    then sorts with [<] on the keys.  The sort is stable; for a comparison
    that is a strict weak order the stable sorted arrangement is unique, and
    it is the one insertion from the right computes.  [<] raises between
    keys of different shapes only, and the keys of this program all have the
    same shape (lemma [natural_key_alt] below). *)

Fixpoint insert_by (kx : list chunk) (x : string)
    (l : list (list chunk * string)) : result (list (list chunk * string)) :=
  match l with
  | [] => Ok [(kx, x)]
  | (ky, y) :: l' =>
      b <-- key_lt ky kx ;
      if b then r <-- insert_by kx x l' ; Ok ((ky, y) :: r)
      else Ok ((kx, x) :: (ky, y) :: l')
  end.

Fixpoint sort_decorated (l : list (list chunk * string))
    : result (list (list chunk * string)) :=
  match l with
  | [] => Ok []
  | (k, x) :: l' => s <-- sort_decorated l' ; insert_by k x s
  end.

Definition decorate (x : string) : result (list chunk * string) :=
  k <-- natural_key x ; Ok (k, x).

Definition sorted_natural (l : list string) : result (list string) :=
  ks <-- rmap decorate l ;
  s <-- sort_decorated ks ;
  Ok (map snd s).

(** ** Data model *)

(** A decoded image.  [im_src] is the input path it was decoded from; the
    program never reads it, it is carried along to tell the pages of a PDF
    apart. *)
Record image : Type := mkImage {
  im_src : string;
  im_size : Z * Z;
  im_mode : string
}.

(** What [img.save(path)] does.  The format of the file is chosen by the
    extension of the path, and the writer of a format stores the image in a
    mode of its own where it cannot store the mode it is given (the WebP
    writer stores [LA] as [RGBA]): [Saved mode] gives the mode of the file
    that was written.  When the call fails, the imaging library either has
    not opened the target (it loads the pixel data first, and the target is
    left as it was), or has opened and truncated it before the encoder
    failed. *)
Inductive save_outcome : Type :=
  | Saved (mode : string)
  | FailedUntouched
  | FailedClobbered.

Record world : Type := mkWorld {
  base_dir : string;
  listdir : string -> list string;            (* os.listdir *)
  isdir : string -> bool;                     (* os.path.isdir *)
  decode : string -> option (Z * Z * string); (* size and mode read by Image.open *)
  resize_ok : image -> Z * Z -> bool;         (* img.resize(size) returns *)
  convert_ok : image -> bool;                 (* img.convert('RGB') returns *)
  save_result : image -> string -> save_outcome;
  pdf_ok : list image -> bool                 (* img2pdf.convert returns *)
}.

(** The pair [(mode, param)] returned by [get_user_choice]. *)
Inductive policy : Type :=
  | use_nth_image (n : Z)
  | max_resolution
  | fixed_resolution (width height : Z)
  | fixed_width (width : Z)
  | fixed_height (height : Z)
  | original_size.

(** Lines printed by the program. *)
Inductive event : Type :=
  | Skipped (folder_name : string)          (* line 86 *)
  | Failed (img_path : string) (e : exn)    (* line 136 *)
  | Generated (pdf_path : string).          (* line 144 *)

(** A file of the output directory: opened for writing and still empty, or
    a PDF with its pages. *)
Inductive outfile : Type :=
  | EmptyFile
  | Pdf (pages : list image).

Record state : Type := mkState {
  temp : option (gmap string image);   (* temp_pdf_images/, [None] when absent *)
  output : gmap string outfile;        (* output/ *)
  log : list event;
  opened : list string                 (* arguments of the Image.open calls *)
}.

Definition set_temp (t : option (gmap string image)) (st : state) : state :=
  mkState t (output st) (log st) (opened st).

Definition set_output (o : gmap string outfile) (st : state) : state :=
  mkState (temp st) o (log st) (opened st).

Definition add_log (e : event) (st : state) : state :=
  mkState (temp st) (output st) (log st ++ [e])%list (opened st).

Definition add_opened (p : string) (st : state) : state :=
  mkState (temp st) (output st) (log st) (opened st ++ [p])%list.

(** ** A state and exception monad *)

Definition M (A : Type) : Type := state -> result A * state.

Definition ret {A : Type} (a : A) : M A := fun st => (Ok a, st).

Definition raise {A : Type} (e : exn) : M A := fun st => (Raise e, st).

Definition bind {A B : Type} (m : M A) (k : A -> M B) : M B :=
  fun st =>
    match m st with
    | (Ok a, st') => k a st'
    | (Raise e, st') => (Raise e, st')
    end.

Notation "x <~ m ; k" := (bind m (fun x => k))
  (at level 20, m at level 100, k at level 200, only parsing).

Definition lift {A : Type} (r : result A) : M A := fun st => (r, st).

Definition modify (f : state -> state) : M unit := fun st => (Ok tt, f st).

(** [try: body except Exception as e: handler(e)] *)
Definition try_except {A : Type} (body : M A) (handler : exn -> M A) : M A :=
  fun st =>
    match body st with
    | (Ok a, st') => (Ok a, st')
    | (Raise e, st') => handler e st'
    end.

(** [try: body finally: fin] *)
Definition try_finally {A : Type} (body : M A) (fin : M unit) : M A :=
  fun st =>
    match body st with
    | (r, st') =>
        match fin st' with
        | (Ok _, st'') => (r, st'')
        | (Raise e, st'') => (Raise e, st'')
        end
    end.

(** ** The imaging library *)

Definition Image_open (w : world) (p : string) : M image :=
  fun st =>
    match decode w p with
    | Some (sz, md) => (Ok (mkImage p sz md), add_opened p st)
    | None => (Raise ImageError, add_opened p st)
    end.

(** [img.resize(sz, Image.LANCZOS)] and [img.convert('RGB')] touch no file. *)
Definition resize (w : world) (img : image) (sz : Z * Z) : result image :=
  if resize_ok w img sz then Ok (mkImage (im_src img) sz (im_mode img))
  else Raise ImageError.

Definition convert_RGB (w : world) (img : image) : result image :=
  if convert_ok w img then Ok (mkImage (im_src img) (im_size img) "RGB")
  else Raise ImageError.

Definition save (w : world) (img : image) (path : string) : M unit :=
  fun st =>
    match temp st with
    | None => (Raise ImageError, st)
    | Some files =>
        match save_result w img path with
        | Saved mode =>
            (Ok tt,
             set_temp (Some (<[path := mkImage (im_src img) (im_size img) mode]> files)) st)
        | FailedUntouched => (Raise ImageError, st)
        | FailedClobbered => (Raise ImageError, set_temp (Some (delete path files)) st)
        end
    end.

(** ** Paths (lines 59-62) *)

Definition input_dir (w : world) : string := PyStr.join (base_dir w) "input".
Definition output_dir (w : world) : string := PyStr.join (base_dir w) "output".
Definition temp_dir (w : world) : string := PyStr.join (base_dir w) "temp_pdf_images".
Definition folder_path (w : world) (folder_name : string) : string :=
  PyStr.join (input_dir w) folder_name.
Definition pdf_path (w : world) (folder_name : string) : string :=
  PyStr.join (output_dir w) (folder_name +:+ ".pdf").
Definition temp_path (w : world) (img_path : string) : string :=
  PyStr.join (temp_dir w) (PyStr.basename img_path).

(** ** [get_user_choice] (lines 19-54)

    The console input is the list of the lines still to be read; [input()]
    takes the first one and raises [EOFError] when there is none. *)

(** The loop of option 3: ask again until the line reads [<int>x<int>].
    [map(int, ...)] unpacked into two names raises [ValueError] when a part
    is no integer literal or when there are not exactly two parts; the loop
    catches it and asks again. *)
Fixpoint read_resolution (lines : list string) : result policy :=
  match lines with
  | [] => Raise EOFError
  | l :: rest =>
      let size := PyStr.strip l in
      if PyStr.contains_char "x" (PyStr.lower size) then
        match rmap PyStr.int (PyStr.split_char "x" (PyStr.lower size)) with
        | Ok [width; height] => Ok (fixed_resolution width height)
        | _ => read_resolution rest
        end
      else read_resolution rest
  end.

(** [int(s) if s.isdigit() else d] *)
Definition int_or_default (s : string) (d : Z) : result Z :=
  if PyStr.isdigit s then PyStr.int s else Ok d.

Definition get_user_choice (lines : list string) : result policy :=
  match lines with
  | [] => Raise EOFError
  | l :: rest =>
      let choice := if PyStr.is_empty (PyStr.strip l) then "1" else PyStr.strip l in
      if String.eqb choice "1" then
        match rest with
        | [] => Raise EOFError
        | n :: _ => v <-- int_or_default (PyStr.strip n) 3 ; Ok (use_nth_image v)
        end
      else if String.eqb choice "2" then Ok max_resolution
      else if String.eqb choice "3" then read_resolution rest
      else if String.eqb choice "4" then
        match rest with
        | [] => Raise EOFError
        | width :: _ => v <-- int_or_default (PyStr.strip width) 800 ; Ok (fixed_width v)
        end
      else if String.eqb choice "5" then
        match rest with
        | [] => Raise EOFError
        | height :: _ => v <-- int_or_default (PyStr.strip height) 600 ; Ok (fixed_height v)
        end
      else if String.eqb choice "6" then Ok original_size
      else Ok (use_nth_image 3)
  end.

(** ** [process_images] (lines 56-149) *)

(** The extensions of line 82. *)
Definition recognized (f : string) : bool :=
  let lf := PyStr.lower f in
  PyStr.endswith lf ".jpg" || PyStr.endswith lf ".jpeg"
  || PyStr.endswith lf ".png" || PyStr.endswith lf ".webp".

(** Lines 79-83: the recognized files of the folder, as paths, sorted. *)
Definition image_files (w : world) (folder_name : string) : result (list string) :=
  sorted_natural
    (map (PyStr.join (folder_path w folder_name))
         (List.filter recognized (listdir w (folder_path w folder_name)))).

(** [l[i]] with Python's negative indices. *)
Definition py_index {A : Type} (l : list A) (i : Z) : result A :=
  let n := Z.of_nat (length l) in
  let j := if (i <? 0)%Z then i + n else i in
  if ((0 <=? j) && (j <? n))%Z then
    match nth_error l (Z.to_nat j) with
    | Some a => Ok a
    | None => Raise IndexError
    end
  else Raise IndexError.

(** [max(...)] of a generator: [ValueError] when it is empty. *)
Definition py_max (l : list Z) : result Z :=
  match l with
  | [] => Raise ValueError
  | x :: l' => Ok (fold_left Z.max l' x)
  end.

(** [[Image.open(f).size for f in image_files]] *)
Fixpoint open_sizes (w : world) (files : list string) : M (list (Z * Z)) :=
  match files with
  | [] => ret []
  | f :: files' =>
      img <~ Image_open w f ;
      sizes <~ open_sizes w files' ;
      ret (im_size img :: sizes)
  end.

(** Lines 89-100: the target size, [None] when the policy has none. *)
Definition resolve_target (w : world) (pol : policy) (files : list string)
    : M (option (Z * Z)) :=
  match pol with
  | use_nth_image param =>
      let n := Z.min (param - 1) (Z.of_nat (length files) - 1) in
      f <~ lift (py_index files n) ;
      img <~ Image_open w f ;
      ret (Some (im_size img))
  | max_resolution =>
      sizes <~ open_sizes w files ;
      mw <~ lift (py_max (map fst sizes)) ;
      mh <~ lift (py_max (map snd sizes)) ;
      ret (Some (mw, mh))
  | fixed_resolution width height => ret (Some (width, height))
  | _ => ret None
  end.

Definition size_eqb (a b : Z * Z) : bool :=
  Z.eqb (fst a) (fst b) && Z.eqb (snd a) (snd b).

(** Lines 110-111 and 128-129. *)
Definition drop_alpha (w : world) (img : image) : result image :=
  if String.eqb (im_mode img) "RGBA" then convert_RGB w img else Ok img.

(** Lines 120-125. *)
Definition adjust (w : world) (pol : policy) (target : option (Z * Z))
    (img : image) : result image :=
  match pol with
  | fixed_width param => resize w img (param, snd (im_size img))
  | fixed_height param => resize w img (fst (im_size img), param)
  | _ =>
      match target with
      | Some t => if negb (size_eqb (im_size img) t) then resize w img t else Ok img
      | None => Ok img
      end
  end.

(** The body of the [try] of lines 106-134 for one image: the staged path. *)
Definition stage_image (w : world) (pol : policy) (target : option (Z * Z))
    (img_path : string) : M string :=
  match pol with
  | original_size =>
      img <~ Image_open w img_path ;
      img <~ lift (drop_alpha w img) ;
      _ <~ save w img (temp_path w img_path) ;
      ret (temp_path w img_path)
  | _ =>
      img <~ Image_open w img_path ;
      img <~ lift (adjust w pol target img) ;
      img <~ lift (drop_alpha w img) ;
      _ <~ save w img (temp_path w img_path) ;
      ret (temp_path w img_path)
  end.

(** Lines 105-137: the loop over the images of the folder.  [temp_images]
    is the list built so far. *)
Fixpoint stage_all (w : world) (pol : policy) (target : option (Z * Z))
    (files : list string) (temp_images : list string) : M (list string) :=
  match files with
  | [] => ret temp_images
  | img_path :: files' =>
      temp_images' <~
        try_except
          (p <~ stage_image w pol target img_path ; ret (temp_images ++ [p])%list)
          (fun e => _ <~ modify (add_log (Failed img_path e)) ; ret temp_images) ;
      stage_all w pol target files' temp_images'
  end.

(** The images read from a list of paths of the staging directory; [None]
    when one of them is missing. *)
Fixpoint read_files (files : gmap string image) (paths : list string)
    : option (list image) :=
  match paths with
  | [] => Some []
  | p :: paths' =>
      match files !! p, read_files files paths' with
      | Some img, Some imgs => Some (img :: imgs)
      | _, _ => None
      end
  end.

(** [img2pdf.convert(temp_images)]: the files are read from the staging
    directory when the call is made. *)
Definition img2pdf_convert (w : world) (temp_images : list string) : M (list image) :=
  fun st =>
    match temp st with
    | None => (Raise PdfError, st)
    | Some files =>
        match read_files files temp_images with
        | Some pages => if pdf_ok w pages then (Ok pages, st) else (Raise PdfError, st)
        | None => (Raise PdfError, st)
        end
    end.

(** Lines 140-144.  The output file is opened, hence created empty, before
    [img2pdf.convert] is called. *)
Definition write_pdf (w : world) (folder_name : string) (temp_images : list string)
    : M unit :=
  match temp_images with
  | [] => ret tt
  | _ :: _ =>
      _ <~ modify (fun st => set_output (<[pdf_path w folder_name := EmptyFile]> (output st)) st) ;
      pages <~ img2pdf_convert w temp_images ;
      _ <~ modify (fun st => set_output (<[pdf_path w folder_name := Pdf pages]> (output st)) st) ;
      modify (add_log (Generated (pdf_path w folder_name)))
  end.

(** Lines 74-144: the body of the loop over the entries of [input/]. *)
Definition process_folder (w : world) (pol : policy) (folder_name : string) : M unit :=
  if negb (isdir w (folder_path w folder_name)) then ret tt
  else
    files <~ lift (image_files w folder_name) ;
    match files with
    | [] => modify (add_log (Skipped folder_name))
    | _ :: _ =>
        target <~ resolve_target w pol files ;
        temp_images <~ stage_all w pol target files [] ;
        write_pdf w folder_name temp_images
    end.

Fixpoint for_folders (w : world) (pol : policy) (names : list string) : M unit :=
  match names with
  | [] => ret tt
  | folder_name :: names' =>
      _ <~ process_folder w pol folder_name ;
      for_folders w pol names'
  end.

(** Lines 65-67: [os.makedirs(..., exist_ok=True)]; only the staging
    directory is part of the state. *)
Definition makedirs_temp : M unit :=
  modify (fun st => match temp st with
                    | Some _ => st
                    | None => set_temp (Some ∅) st
                    end).

(** Lines 148-149. *)
Definition rmtree_temp : M unit :=
  modify (fun st => match temp st with
                    | Some _ => set_temp None st
                    | None => st
                    end).

Definition process_images (w : world) (lines : list string) : M unit :=
  _ <~ makedirs_temp ;
  pol <~ lift (get_user_choice lines) ;
  try_finally (for_folders w pol (listdir w (input_dir w))) rmtree_temp.

(** ** Notions used by the statements: the sort key *)

(** A text between two runs of ASCII digits, and such a run. *)
Definition text_run (t : string) : Prop :=
  PyStr.forallb_str (fun c => negb (PyStr.is_09 c)) t = true.

Definition digit_run (d : string) : Prop :=
  PyStr.is_empty d = false /\ PyStr.forallb_str PyStr.is_09 d = true.

(** The lists [re.split] returns: text, run, text, ..., run, text. *)
Inductive split_shape : list string -> Prop :=
  | shape_last (t : string) :
      text_run t -> split_shape [t]
  | shape_cons (t d : string) (l : list string) :
      text_run t -> digit_run d -> split_shape l -> split_shape (t :: d :: l).

(** A key whose elements are alternately a [str] and an [int]. *)
Fixpoint alt_key (expect_str : bool) (k : list chunk) : bool :=
  match k with
  | [] => true
  | CStr _ :: k' => expect_str && alt_key false k'
  | CInt _ :: k' => negb expect_str && alt_key true k'
  end.

(** A total three-way comparison that agrees with [<] wherever [<] does
    not raise. *)
Definition chunk_compare (a b : chunk) : comparison :=
  match a, b with
  | CInt m, CInt n => Z.compare m n
  | CStr s, CStr t => String.compare s t
  | CInt _, CStr _ => Lt
  | CStr _, CInt _ => Gt
  end.

Fixpoint key_compare (a b : list chunk) : comparison :=
  match a, b with
  | [], [] => Eq
  | [], _ :: _ => Lt
  | _ :: _, [] => Gt
  | x :: a', y :: b' =>
      match chunk_compare x y with
      | Eq => key_compare a' b'
      | c => c
      end
  end.

(** [a] may stand before [b] in a sorted list: [b < a] is false. *)
Definition key_le (a b : list chunk * string) : Prop :=
  key_lt (fst b) (fst a) = Ok false.

(** The value of a run of digits read from the left with [acc] before it. *)
Fixpoint digits_value (acc : Z) (s : string) : Z :=
  match s with
  | EmptyString => acc
  | String c s' => digits_value (10 * acc + PyStr.digit_val c) s'
  end.

(** Two splits with the same texts that differ in a run of digits, the
    first such run being the smaller number in the first split. *)
Inductive same_texts : list string -> list string -> Prop :=
  | same_last (t : string) : same_texts [t] [t]
  | same_cons (t da db : string) (la lb : list string) :
      same_texts la lb -> same_texts (t :: da :: la) (t :: db :: lb).

Inductive smaller_number : list string -> list string -> Prop :=
  | smaller_here (t da db : string) (la lb : list string) :
      digits_value 0 da < digits_value 0 db ->
      same_texts la lb ->
      smaller_number (t :: da :: la) (t :: db :: lb)
  | smaller_later (t da db : string) (la lb : list string) :
      digits_value 0 da = digits_value 0 db ->
      smaller_number la lb ->
      smaller_number (t :: da :: la) (t :: db :: lb).

(** ** Notions used by the statements: the folders *)

(** [a] may stand before [b] in natural-sort order. *)
Definition natural_le (a b : string) : Prop :=
  exists ka kb, natural_key a = Ok ka /\ natural_key b = Ok kb /\
                key_lt kb ka = Ok false.

Definition all_alt (l : list (list chunk * string)) : Prop :=
  Forall (fun e => alt_key true (fst e) = true) l.

(** The elements of a decorated list whose key is [k], and the strings of a
    list whose key is [k]. *)
Definition same_key (k : list chunk) (e : list chunk * string) : bool :=
  match key_compare k (fst e) with Eq => true | _ => false end.

Definition has_key (k : list chunk) (x : string) : bool :=
  match natural_key x with
  | Ok k' => match key_compare k k' with Eq => true | _ => false end
  | Raise _ => false
  end.

(** What [Image.open] returns, apart from the record of the call. *)
Definition decoded (w : world) (p : string) : result image :=
  match decode w p with
  | Some (sz, md) => Ok (mkImage p sz md)
  | None => Raise ImageError
  end.

(** The conversion of the image at [p]: what lines 106-129 hand to
    [img.save], or the exception they raise. *)
Definition conversion (w : world) (pol : policy) (target : option (Z * Z))
    (p : string) : result image :=
  match pol with
  | original_size => img <-- decoded w p ; drop_alpha w img
  | _ => img <-- decoded w p ; img <-- adjust w pol target img ; drop_alpha w img
  end.

(** The staged conversion of the image at [p]: the file written to the
    staging directory, or the exception caught at line 135. *)
Definition stage_outcome (w : world) (pol : policy) (target : option (Z * Z))
    (p : string) : result image :=
  img <-- conversion w pol target p ;
  match save_result w img (temp_path w p) with
  | Saved mode => Ok (mkImage (im_src img) (im_size img) mode)
  | _ => Raise ImageError
  end.

(** The staged conversions of the images that did not fail, in the order
    of the list, and the lines printed for the others. *)
Fixpoint staged_images (w : world) (pol : policy) (target : option (Z * Z))
    (files : list string) : list image :=
  match files with
  | [] => []
  | p :: files' =>
      match stage_outcome w pol target p with
      | Ok img => img :: staged_images w pol target files'
      | Raise _ => staged_images w pol target files'
      end
  end.

Fixpoint staged_paths (w : world) (pol : policy) (target : option (Z * Z))
    (files : list string) : list string :=
  match files with
  | [] => []
  | p :: files' =>
      match stage_outcome w pol target p with
      | Ok _ => temp_path w p :: staged_paths w pol target files'
      | Raise _ => staged_paths w pol target files'
      end
  end.

Fixpoint failures (w : world) (pol : policy) (target : option (Z * Z))
    (files : list string) : list event :=
  match files with
  | [] => []
  | p :: files' =>
      match stage_outcome w pol target p with
      | Ok _ => failures w pol target files'
      | Raise e => Failed p e :: failures w pol target files'
      end
  end.

(** The names of a directory are distinct and contain no separator. *)
Definition wf_listing (names : list string) : Prop :=
  NoDup names /\ Forall (fun f => PyStr.contains_char "/" f = false) names.

(** The recognized files of a folder, as the paths given to [sorted]. *)
Definition recognized_paths (w : world) (folder_name : string) : list string :=
  map (PyStr.join (folder_path w folder_name))
      (List.filter recognized (listdir w (folder_path w folder_name))).

(** Processing the folder ended by writing its PDF and printing line 144. *)
Definition yields_pdf (w : world) (folder_name : string) (st st' : state) : Prop :=
  exists evs, log st' = (log st ++ evs ++ [Generated (pdf_path w folder_name)])%list.

(** The modes of the imaging library that carry an alpha band. *)
Definition has_alpha (mode : string) : bool :=
  String.eqb mode "RGBA" || String.eqb mode "LA" || String.eqb mode "PA"
  || String.eqb mode "RGBa" || String.eqb mode "La".

(** [m] is the greatest element of [l]. *)
Definition is_max (l : list Z) (m : Z) : Prop :=
  In m l /\ Forall (fun x => x <= m) l.

(** ** Concrete inputs *)

Module Demo.

(** A superscript two, U+00B2. *)
Definition sup2 : ascii := ascii_of_nat 178.

(** ["1²2.jpg"] and ["1²3.jpg"]: two names that differ in their last run
    of digits only. *)
Definition name_a : string := String "1" (String sup2 "2.jpg").
Definition name_b : string := String "1" (String sup2 "3.jpg").

(** The working directory [/w]:
    - [input/A]: [p10.jpg], [p2.png] (colour with an alpha band),
      [readme.md] and [p1.PNG], which is no image;
    - [input/B]: [p2.png] and [x.txt];
    - [input/E]: [x.txt] only;
    - [input/G]: [g.png], grey with an alpha band;
    - [input/M]: [1.png] of size 100x200 and [2.png] of size 300x50;
    - [input/S]: the two images [name_b] and [name_a];
    - [input/notes.txt], a plain file.
    Every library call on a decoded image succeeds, and every image is
    written in the mode it has. *)
Definition ls (d : string) : list string :=
  if String.eqb d "/w/input" then ["A"; "B"; "E"; "G"; "M"; "S"; "notes.txt"]
  else if String.eqb d "/w/input/A" then ["p10.jpg"; "p2.png"; "readme.md"; "p1.PNG"]
  else if String.eqb d "/w/input/B" then ["p2.png"; "x.txt"]
  else if String.eqb d "/w/input/E" then ["x.txt"]
  else if String.eqb d "/w/input/G" then ["g.png"]
  else if String.eqb d "/w/input/M" then ["2.png"; "1.png"]
  else if String.eqb d "/w/input/S" then [name_b; name_a]
  else [].

Definition is_folder (p : string) : bool :=
  String.eqb p "/w/input/A" || String.eqb p "/w/input/B"
  || String.eqb p "/w/input/E" || String.eqb p "/w/input/G"
  || String.eqb p "/w/input/M" || String.eqb p "/w/input/S".

Definition header (p : string) : option (Z * Z * string) :=
  if String.eqb p "/w/input/A/p10.jpg" then Some (100, 200, "RGB")
  else if String.eqb p "/w/input/A/p2.png" then Some (300, 50, "RGBA")
  else if String.eqb p "/w/input/B/p2.png" then Some (10, 20, "RGB")
  else if String.eqb p "/w/input/G/g.png" then Some (10, 20, "LA")
  else if String.eqb p "/w/input/M/1.png" then Some (100, 200, "RGB")
  else if String.eqb p "/w/input/M/2.png" then Some (300, 50, "RGB")
  else if String.eqb p ("/w/input/S/" +:+ name_a) then Some (64, 64, "RGB")
  else if String.eqb p ("/w/input/S/" +:+ name_b) then Some (64, 64, "RGB")
  else None.

Definition w : world :=
  mkWorld "/w" ls is_folder header
          (fun _ _ => true) (fun _ => true) (fun img _ => Saved (im_mode img)) (fun _ => true).

(** Before the run: no staging directory, an empty output directory. *)
Definition st0 : state := mkState None ∅ [] [].

(** Inside the run, before the first folder. *)
Definition st1 : state := mkState (Some ∅) ∅ [] [].

(** Inside the run, after folder [A] was processed as it is: its two
    images that can be decoded are staged and its PDF is written. *)
Definition staged_A : gmap string image :=
  <["/w/temp_pdf_images/p10.jpg" := mkImage "/w/input/A/p10.jpg" (100, 200) "RGB"]>
    (<["/w/temp_pdf_images/p2.png" := mkImage "/w/input/A/p2.png" (300, 50) "RGB"]> ∅).

Definition st_after_A : state :=
  mkState (Some staged_A)
          (<["/w/output/A.pdf" :=
               Pdf [mkImage "/w/input/A/p2.png" (300, 50) "RGB";
                    mkImage "/w/input/A/p10.jpg" (100, 200) "RGB"]]> ∅)
          [Failed "/w/input/A/p1.PNG" ImageError; Generated "/w/output/A.pdf"]
          ["/w/input/A/p1.PNG"; "/w/input/A/p2.png"; "/w/input/A/p10.jpg"].

End Demo.

(** * Part I, continued: the rest of [run.py] *)

(** ** [resource_path] (lines 11-17) *)

Module PyPath.

(** [p.startswith('/')] *)
Definition is_abs (p : string) : bool :=
  match p with
  | EmptyString => false
  | String c _ => Ascii.eqb c "/"
  end.

(** [os.path.join(a, b)] of [posixpath], in full: an absolute [b] replaces
    [a], and no separator is added after an empty [a] or after one that ends
    with the separator. *)
Definition join (a b : string) : string :=
  if is_abs b then b
  else if PyStr.is_empty a || PyStr.endswith a "/" then a +:+ b
  else a +:+ "/" +:+ b.

End PyPath.

(** [meipass] is [sys._MEIPASS] where the attribute exists, that is in a
    packaged program; [cwd] is [os.path.abspath(".")]. *)
Definition resource_path (meipass : option string) (cwd : string)
    (relative_path : string) : string :=
  let base_path :=
    match meipass with
    | Some p => p
    | None => cwd     (* except AttributeError *)
    end in
  PyPath.join base_path relative_path.

(** ** [get_user_choice] with the lines it leaves unread *)

(** One turn of the loop of option 3 (lines 38-44): the resolution read from
    a line, or [None] when the loop asks again. *)
Definition parse_resolution (l : string) : option (Z * Z) :=
  let size := PyStr.strip l in
  if PyStr.contains_char "x" (PyStr.lower size) then
    match rmap PyStr.int (PyStr.split_char "x" (PyStr.lower size)) with
    | Ok [width; height] => Some (width, height)
    | _ => None
    end
  else None.

Fixpoint read_resolution_io (lines : list string) : result policy * list string :=
  match lines with
  | [] => (Raise EOFError, [])
  | l :: rest =>
      match parse_resolution l with
      | Some (width, height) => (Ok (fixed_resolution width height), rest)
      | None => read_resolution_io rest
      end
  end.

(** [get_user_choice] as a reader of the console: its result and the lines
    that are still to be read when it ends. *)
Definition get_user_choice_io (lines : list string) : result policy * list string :=
  match lines with
  | [] => (Raise EOFError, [])
  | l :: rest =>
      let choice := if PyStr.is_empty (PyStr.strip l) then "1" else PyStr.strip l in
      if String.eqb choice "1" then
        match rest with
        | [] => (Raise EOFError, [])
        | n :: rest' =>
            (v <-- int_or_default (PyStr.strip n) 3 ; Ok (use_nth_image v), rest')
        end
      else if String.eqb choice "2" then (Ok max_resolution, rest)
      else if String.eqb choice "3" then read_resolution_io rest
      else if String.eqb choice "4" then
        match rest with
        | [] => (Raise EOFError, [])
        | width :: rest' =>
            (v <-- int_or_default (PyStr.strip width) 800 ; Ok (fixed_width v), rest')
        end
      else if String.eqb choice "5" then
        match rest with
        | [] => (Raise EOFError, [])
        | height :: rest' =>
            (v <-- int_or_default (PyStr.strip height) 600 ; Ok (fixed_height v), rest')
        end
      else if String.eqb choice "6" then (Ok original_size, rest)
      else (Ok (use_nth_image 3), rest)
  end.

(** ** The main block (lines 151-163) *)

(** The two lines the main block prints. *)
Inductive console_line : Type :=
  | ProgramError (e : exn)     (* line 157 *)
  | Completed.                 (* line 161 *)

(** [input("按Enter退出...")]: one line is read and dropped. *)
Definition wait_enter (lines : list string) : result unit * list string :=
  match lines with
  | [] => (Raise EOFError, [])
  | _ :: rest => (Ok tt, rest)
  end.

Record main_result : Type := mkMain {
  exit : result unit;            (* how the program ends *)
  final : state;
  printed : list console_line;
  unread : list string
}.

(** [frozen] is [getattr(sys, 'frozen', False)].  Every exception of the
    model is an [Exception], so the [except] clause catches whatever
    [process_images] raises; an exception raised in the [finally] clause
    replaces the one that was on its way. *)
Definition main (frozen : bool) (w : world) (lines : list string) (st : state)
    : main_result :=
  let (r, st') := process_images w lines st in
  let rest := snd (get_user_choice_io lines) in
  let '(r1, rest1, out1) :=
    match r with
    | Ok _ => (Ok tt, rest, [])
    | Raise e =>
        if negb frozen
        then (fst (wait_enter rest), snd (wait_enter rest), [ProgramError e])
        else (Ok tt, rest, [ProgramError e])
    end in
  let out2 := (out1 ++ [Completed])%list in
  if frozen then
    match wait_enter rest1 with
    | (Ok _, rest2) => mkMain r1 st' out2 rest2
    | (Raise e, rest2) => mkMain (Raise e) st' out2 rest2
    end
  else mkMain r1 st' out2 rest1.

(** ** Further notions used by the statements *)

(** A character on which [str.isdigit] and [[0-9]] agree, and a string of
    such characters. *)
Definition plain_char (c : ascii) : bool :=
  negb (PyStr.isdigit_char c) || PyStr.is_09 c.

Definition plain (s : string) : Prop :=
  PyStr.forallb_str plain_char s = true.

(** A string of at most 4300 characters: [int()] converts its digits in
    every version of CPython, whatever [sys.int_max_str_digits] is set to
    by default. *)
Definition short (s : string) : Prop :=
  Z.of_nat (String.length s) <= 4300.

(** [''.join(chunks)] *)
Definition join_chunks (chunks : list string) : string :=
  fold_right String.append EmptyString chunks.

(** Two splits with the same texts whose runs of digits have the same
    values, as with ["p01.jpg"] and ["p1.jpg"]. *)
Inductive same_numbers : list string -> list string -> Prop :=
  | same_numbers_last (t : string) : same_numbers [t] [t]
  | same_numbers_cons (t da db : string) (la lb : list string) :
      digits_value 0 da = digits_value 0 db ->
      same_numbers la lb ->
      same_numbers (t :: da :: la) (t :: db :: lb).

(** The policies under which a folder has a target size. *)
Definition has_target (pol : policy) : bool :=
  match pol with
  | use_nth_image _ | max_resolution | fixed_resolution _ _ => true
  | fixed_width _ | fixed_height _ | original_size => false
  end.

(** The images lines 90-96 open to resolve the target size. *)
Definition resolver_opens (pol : policy) (files : list string) : list string :=
  match pol with
  | use_nth_image param =>
      match py_index files (Z.min (param - 1) (Z.of_nat (length files) - 1)) with
      | Ok f => [f]
      | Raise _ => []
      end
  | max_resolution => files
  | _ => []
  end.

(** ** Further concrete inputs *)

Module Demo2.

(** The demonstration with an imaging library that cannot write, with a
    PDF assembler that refuses every list, and with one that cannot resize. *)
Definition w_nosave : world :=
  mkWorld "/w" Demo.ls Demo.is_folder Demo.header
          (fun _ _ => true) (fun _ => true) (fun _ _ => FailedClobbered) (fun _ => true).

Definition w_nopdf : world :=
  mkWorld "/w" Demo.ls Demo.is_folder Demo.header
          (fun _ _ => true) (fun _ => true) (fun img _ => Saved (im_mode img)) (fun _ => false).

Definition w_noresize : world :=
  mkWorld "/w" Demo.ls Demo.is_folder Demo.header
          (fun _ _ => false) (fun _ => true) (fun img _ => Saved (im_mode img)) (fun _ => true).

(** The demonstration with plain files only under [input/]. *)
Definition w_flat : world :=
  mkWorld "/w" Demo.ls (fun _ => false) Demo.header
          (fun _ _ => true) (fun _ => true) (fun img _ => Saved (im_mode img)) (fun _ => true).

(** The demonstration with one more image in folder [G], [g.webp], grey
    with an alpha band, and with the writers of the imaging library: a WebP
    file holds mode [RGB], or [RGBA] when the image has an alpha band; the
    other formats keep the mode of the images of the demonstration. *)
Definition ls_webp (d : string) : list string :=
  if String.eqb d "/w/input/G" then ["g.png"; "g.webp"] else Demo.ls d.

Definition header_webp (p : string) : option (Z * Z * string) :=
  if String.eqb p "/w/input/G/g.webp" then Some (10, 20, "LA") else Demo.header p.

Definition writer (img : image) (path : string) : save_outcome :=
  if PyStr.endswith (PyStr.lower path) ".webp"
  then Saved (if has_alpha (im_mode img) then "RGBA" else "RGB")
  else Saved (im_mode img).

Definition w_webp : world :=
  mkWorld "/w" ls_webp Demo.is_folder header_webp
          (fun _ _ => true) (fun _ => true) writer (fun _ => true).

(** A PDF of folder [M] left by an earlier run. *)
Definition st_old_pdf : state :=
  mkState (Some ∅) (<["/w/output/M.pdf" := Pdf []]> ∅) [] [].

End Demo2.

(** * Part II: lemmas and theorems *)

(** ** The result type *)

Lemma rmap_app {A B : Type} (f : A -> result B) (l1 l2 : list A) :
  rmap f (l1 ++ l2)%list =
  (r1 <-- rmap f l1 ; r2 <-- rmap f l2 ; Ok (r1 ++ r2)%list).
Proof.
  induction l1 as [|a l1 IH]; simpl.
  - destruct (rmap f l2); reflexivity.
  - destruct (f a); simpl; [|reflexivity].
    rewrite IH. destruct (rmap f l1); simpl; [|reflexivity].
    destruct (rmap f l2); reflexivity.
Qed.

Lemma rmap_length {A B : Type} (f : A -> result B) (l : list A) (r : list B) :
  rmap f l = Ok r -> length r = length l.
Proof.
  revert r. induction l as [|a l IH]; simpl; intros r H.
  - now inversion H.
  - destruct (f a); simpl in H; [|discriminate].
    destruct (rmap f l); simpl in H; [|discriminate].
    inversion H; subst. simpl. f_equal. now apply IH.
Qed.

(** ** Characters *)

Ltac each_char c :=
  destruct c as [[] [] [] [] [] [] [] []]; vm_compute; try reflexivity; try discriminate.

Lemma isdigit_char_not_space (c : ascii) :
  PyStr.isdigit_char c = true -> PyStr.isspace_char c = false.
Proof. each_char c. Qed.

Lemma is_09_isdigit_char (c : ascii) :
  PyStr.is_09 c = true -> PyStr.isdigit_char c = true.
Proof. unfold PyStr.isdigit_char. intros ->. reflexivity. Qed.

Lemma isdigit_char_not_sign (c : ascii) :
  PyStr.isdigit_char c = true ->
  Ascii.eqb c "+" = false /\ Ascii.eqb c "-" = false /\ Ascii.eqb c "_" = false.
Proof. each_char c; intros _; repeat split. Qed.

Lemma isdigit_char_not_int_space (c : ascii) :
  PyStr.isdigit_char c = true -> PyStr.int_space_char c = false.
Proof. each_char c. Qed.

(** ** [strip] leaves a string without white space alone *)

Lemma forallb_str_impl (p q : ascii -> bool) (s : string) :
  (forall c, p c = true -> q c = true) ->
  PyStr.forallb_str p s = true -> PyStr.forallb_str q s = true.
Proof.
  intros Hpq. induction s as [|c s IH]; simpl; [reflexivity|].
  intros H. apply andb_prop in H as [Hc Hs].
  now rewrite (Hpq c Hc), (IH Hs).
Qed.

Lemma lstrip_by_id (sp : ascii -> bool) (s : string) :
  PyStr.forallb_str (fun c => negb (sp c)) s = true ->
  PyStr.lstrip_by sp s = s.
Proof.
  destruct s as [|c s]; simpl; [reflexivity|].
  intros H. apply andb_prop in H as [Hc _].
  apply negb_true_iff in Hc. now rewrite Hc.
Qed.

Lemma rstrip_by_id (sp : ascii -> bool) (s : string) :
  PyStr.forallb_str (fun c => negb (sp c)) s = true ->
  PyStr.rstrip_by sp s = s.
Proof.
  induction s as [|c s IH]; simpl; [reflexivity|].
  intros H. apply andb_prop in H as [Hc Hs].
  apply negb_true_iff in Hc. rewrite Hc, andb_false_r.
  now rewrite (IH Hs).
Qed.

Lemma strip_id (s : string) :
  PyStr.forallb_str (fun c => negb (PyStr.isspace_char c)) s = true ->
  PyStr.strip s = s.
Proof.
  intros H. unfold PyStr.strip, PyStr.lstrip, PyStr.rstrip.
  rewrite (lstrip_by_id _ s H). now apply rstrip_by_id.
Qed.

Lemma isdigit_strip (s : string) :
  PyStr.forallb_str PyStr.isdigit_char s = true -> PyStr.strip s = s.
Proof.
  intros H. apply strip_id. revert H. apply forallb_str_impl.
  intros c Hc. now rewrite (isdigit_char_not_space c Hc).
Qed.

(** [int] finds no white space around what [isdigit] accepts. *)
Lemma isdigit_int_strip (s : string) :
  PyStr.forallb_str PyStr.isdigit_char s = true ->
  PyStr.rstrip_by PyStr.int_space_char (PyStr.lstrip_by PyStr.int_space_char s) = s.
Proof.
  intros H.
  assert (Hs : PyStr.forallb_str (fun c => negb (PyStr.int_space_char c)) s = true).
  { revert H. apply forallb_str_impl.
    intros c Hc. now rewrite (isdigit_char_not_int_space c Hc). }
  rewrite (lstrip_by_id _ s Hs). now apply rstrip_by_id.
Qed.

(** ** [int] on what [isdigit] accepts *)

Lemma parse_digits_run (s : string) :
  PyStr.forallb_str PyStr.is_09 s = true ->
  forall acc, PyStr.parse_digits acc true s = Some (digits_value acc s).
Proof.
  induction s as [|c s IH]; simpl; intros H acc; [reflexivity|].
  apply andb_prop in H as [Hc Hs]. rewrite Hc. now apply IH.
Qed.

Lemma int_digit_run (d : string) :
  digit_run d -> PyStr.int d = Ok (digits_value 0 d).
Proof.
  intros [Hne Hall]. unfold PyStr.int.
  rewrite isdigit_int_strip
    by (revert Hall; apply forallb_str_impl, is_09_isdigit_char).
  destruct d as [|c d]; [discriminate|].
  simpl in Hall. apply andb_prop in Hall as [Hc Hd].
  destruct (isdigit_char_not_sign c (is_09_isdigit_char c Hc)) as (-> & -> & _).
  simpl. rewrite Hc. now rewrite (parse_digits_run d Hd).
Qed.

Lemma isdigit_digit_run (d : string) : digit_run d -> PyStr.isdigit d = true.
Proof.
  intros [Hne Hall]. unfold PyStr.isdigit. rewrite Hne. simpl.
  revert Hall. apply forallb_str_impl, is_09_isdigit_char.
Qed.

(** A text that [isdigit] accepts starts with a superscript digit, which
    [int] refuses. *)
Lemma int_text_run (t : string) :
  text_run t -> PyStr.isdigit t = true -> PyStr.int t = Raise ValueError.
Proof.
  unfold text_run, PyStr.isdigit. intros Ht Hd.
  apply andb_prop in Hd as [Hne Hall].
  unfold PyStr.int. rewrite (isdigit_int_strip t Hall).
  destruct t as [|c t]; [discriminate|].
  simpl in Ht, Hall.
  apply andb_prop in Ht as [Hc _]. apply andb_prop in Hall as [Hdc _].
  apply negb_true_iff in Hc.
  destruct (isdigit_char_not_sign c Hdc) as (-> & -> & Hu).
  simpl. now rewrite Hc, Hu.
Qed.

Lemma key_of_text_run (t : string) (c : chunk) :
  text_run t -> key_of_chunk t = Ok c -> c = CStr t.
Proof.
  intros Ht. unfold key_of_chunk.
  destruct (PyStr.isdigit t) eqn:Hd.
  - rewrite (int_text_run t Ht Hd). discriminate.
  - now intros [= <-].
Qed.

Lemma key_of_digit_run (d : string) :
  digit_run d -> key_of_chunk d = Ok (CInt (digits_value 0 d)).
Proof.
  intros Hd. unfold key_of_chunk.
  now rewrite (isdigit_digit_run d Hd), (int_digit_run d Hd).
Qed.

(** ** [re.split] *)

Lemma re_split_shape (s : string) : split_shape (PyStr.re_split s).
Proof.
  induction s as [|c s IH]; simpl.
  - now constructor.
  - destruct (PyStr.is_09 c) eqn:Hc.
    + inversion IH as [t Ht Heq | t d l Ht Hd Hl Heq]; rewrite <- Heq in *.
      * assert (split_shape ["" ; String c "" ; t]).
        { constructor; [reflexivity | | now constructor].
          split; [reflexivity|]. simpl. now rewrite Hc. }
        now destruct t.
      * destruct t as [|c' t].
        -- constructor; [reflexivity | | assumption].
           destruct Hd as [_ Hd]. split; [reflexivity|]. simpl. now rewrite Hc, Hd.
        -- constructor; [reflexivity | | now constructor].
           split; [reflexivity|]. simpl. now rewrite Hc.
    + assert (Hcons : forall t, text_run t -> text_run (String c t)).
      { intros t Ht. unfold text_run in *. simpl. now rewrite Hc, Ht. }
      inversion IH as [t Ht Heq | t d l Ht Hd Hl Heq]; rewrite <- Heq in *;
        constructor; auto.
Qed.

(** The key of a split is alternately a [str] and an [int]. *)
Lemma rmap_key_shape (l : list string) :
  split_shape l ->
  forall k, rmap key_of_chunk l = Ok k -> alt_key true k = true.
Proof.
  induction 1 as [t Ht | t d l Ht Hd Hl IH]; intros k Hk; simpl in Hk.
  - destruct (key_of_chunk t) as [c|] eqn:Hc; simpl in Hk; [|discriminate].
    apply (key_of_text_run t c Ht) in Hc. subst c.
    now inversion Hk.
  - destruct (key_of_chunk t) as [c|] eqn:Hc; simpl in Hk; [|discriminate].
    apply (key_of_text_run t c Ht) in Hc. subst c.
    rewrite (key_of_digit_run d Hd) in Hk. simpl in Hk.
    destruct (rmap key_of_chunk l) as [k'|] eqn:Hl'; simpl in Hk; [|discriminate].
    inversion Hk; subst. simpl. now apply IH.
Qed.

Lemma natural_key_alt (x : string) (k : list chunk) :
  natural_key x = Ok k -> alt_key true k = true.
Proof. apply rmap_key_shape, re_split_shape. Qed.

(** ** The order on keys *)

Lemma string_compare_refl (s : string) : String.compare s s = Eq.
Proof.
  destruct (String.compare s s) eqn:H; [reflexivity| |];
    pose proof (String.compare_antisym s s) as Ha; rewrite H in Ha; discriminate.
Qed.

Lemma string_compare_trans (a b c : string) :
  String.compare a b = Lt -> String.compare b c = Lt -> String.compare a c = Lt.
Proof.
  intros H1 H2.
  exact (StrictOrder_Transitive (R := String_as_OT.lt) a b c H1 H2).
Qed.

Lemma chunk_compare_eq (x y : chunk) : chunk_compare x y = Eq <-> x = y.
Proof.
  destruct x as [m|s], y as [n|t]; simpl; split; intros H; try discriminate.
  - apply Z.compare_eq in H. now subst.
  - inversion H. apply Z.compare_refl.
  - apply String.compare_eq_iff in H. now subst.
  - inversion H. apply string_compare_refl.
Qed.

Lemma chunk_compare_antisym (x y : chunk) :
  chunk_compare x y = CompOpp (chunk_compare y x).
Proof.
  destruct x as [m|s], y as [n|t]; simpl; try reflexivity.
  - apply Z.compare_antisym.
  - apply String.compare_antisym.
Qed.

Lemma chunk_compare_trans (x y z : chunk) :
  chunk_compare x y = Lt -> chunk_compare y z = Lt -> chunk_compare x z = Lt.
Proof.
  destruct x as [m|s], y as [n|t], z as [p|u]; simpl; try discriminate; try reflexivity.
  - rewrite !Z.compare_lt_iff. lia.
  - apply string_compare_trans.
Qed.

Lemma chunk_eqb_compare (x y : chunk) :
  chunk_eqb x y = match chunk_compare x y with Eq => true | _ => false end.
Proof.
  destruct x as [m|s], y as [n|t]; simpl; try reflexivity.
  - destruct (Z.eqb_spec m n) as [->|Hne].
    + now rewrite Z.compare_refl.
    + destruct (m ?= n) eqn:H; try reflexivity.
      apply Z.compare_eq in H. contradiction.
  - destruct (String.eqb_spec s t) as [->|Hne].
    + now rewrite string_compare_refl.
    + destruct (String.compare s t) eqn:H; try reflexivity.
      apply String.compare_eq_iff in H. contradiction.
Qed.

Lemma key_compare_refl (a : list chunk) : key_compare a a = Eq.
Proof.
  induction a as [|x a IH]; simpl; [reflexivity|].
  now rewrite (proj2 (chunk_compare_eq x x) eq_refl).
Qed.

Lemma key_compare_antisym (a b : list chunk) :
  key_compare a b = CompOpp (key_compare b a).
Proof.
  revert b. induction a as [|x a IH]; intros [|y b]; simpl; try reflexivity.
  rewrite (chunk_compare_antisym x y).
  destruct (chunk_compare y x); simpl; auto.
Qed.

Lemma key_compare_eq (a b : list chunk) : key_compare a b = Eq -> a = b.
Proof.
  revert b. induction a as [|x a IH]; intros [|y b]; simpl; try discriminate; auto.
  destruct (chunk_compare x y) eqn:H; try discriminate.
  apply chunk_compare_eq in H. subst y. intros Hab. f_equal. now apply IH.
Qed.

Lemma key_compare_trans (a b c : list chunk) :
  key_compare a b = Lt -> key_compare b c = Lt -> key_compare a c = Lt.
Proof.
  revert b c. induction a as [|x a IH]; intros [|y b] [|z c]; simpl;
    try discriminate; try reflexivity.
  destruct (chunk_compare x y) eqn:Hxy; try discriminate.
  - apply chunk_compare_eq in Hxy. subst y.
    destruct (chunk_compare x z); try discriminate; auto.
    apply IH.
  - intros _. destruct (chunk_compare y z) eqn:Hyz; try discriminate.
    + apply chunk_compare_eq in Hyz. subst z. now rewrite Hxy.
    + intros _. now rewrite (chunk_compare_trans x y z Hxy Hyz).
Qed.

(** On two keys of the same alternation [<] does not raise and is the total
    comparison. *)
Lemma key_lt_compare (a b : list chunk) (e : bool) :
  alt_key e a = true -> alt_key e b = true ->
  key_lt a b = Ok (match key_compare a b with Lt => true | _ => false end).
Proof.
  revert b e. induction a as [|x a IH]; intros [|y b] e Ha Hb; simpl; try reflexivity.
  rewrite chunk_eqb_compare.
  destruct x as [m|s], y as [n|t], e; simpl in Ha, Hb; try discriminate.
  - simpl. destruct (m ?= n) eqn:H; simpl.
    + now apply (IH b true).
    + unfold Z.ltb. now rewrite H.
    + unfold Z.ltb. now rewrite H.
  - simpl. destruct (String.compare s t) eqn:H; simpl.
    + now apply (IH b false).
    + unfold String.ltb. now rewrite H.
    + unfold String.ltb. now rewrite H.
Qed.

Lemma key_lt_irrefl (a : list chunk) (e : bool) :
  alt_key e a = true -> key_lt a a = Ok false.
Proof.
  intros Ha. rewrite (key_lt_compare a a e Ha Ha). now rewrite key_compare_refl.
Qed.

(** When [a < b] is false, [b < a] or the keys are equal. *)
Lemma key_lt_asym (a b : list chunk) (e : bool) :
  alt_key e a = true -> alt_key e b = true ->
  key_lt a b = Ok true -> key_lt b a = Ok false.
Proof.
  intros Ha Hb. rewrite (key_lt_compare a b e Ha Hb), (key_lt_compare b a e Hb Ha).
  rewrite (key_compare_antisym b a).
  destruct (key_compare a b); simpl; congruence.
Qed.

Lemma key_le_trans (a b c : list chunk * string) :
  alt_key true (fst a) = true -> alt_key true (fst b) = true ->
  alt_key true (fst c) = true ->
  key_le a b -> key_le b c -> key_le a c.
Proof.
  unfold key_le. intros Ha Hb Hc.
  rewrite (key_lt_compare _ _ true Hb Ha), (key_lt_compare _ _ true Hc Hb),
    (key_lt_compare _ _ true Hc Ha).
  intros Hab Hbc.
  destruct (key_compare (fst c) (fst a)) eqn:Hca; try reflexivity.
  exfalso.
  destruct (key_compare (fst b) (fst a)) eqn:Hba; try discriminate.
  - apply key_compare_eq in Hba. rewrite Hba in *. now rewrite Hca in Hbc.
  - destruct (key_compare (fst c) (fst b)) eqn:Hcb; try discriminate.
    + apply key_compare_eq in Hcb. rewrite Hcb in *. congruence.
    + rewrite key_compare_antisym in Hba, Hcb.
      apply CompOpp_iff in Hba, Hcb. simpl in Hba, Hcb.
      pose proof (key_compare_trans _ _ _ Hba Hcb) as Hac.
      rewrite key_compare_antisym, Hac in Hca. discriminate.
Qed.

(** ** [sorted] *)

Lemma key_le_cons_sorted (kx ky : list chunk) (x y : string)
    (l : list (list chunk * string)) :
  alt_key true kx = true -> all_alt ((ky, y) :: l) ->
  key_le (kx, x) (ky, y) ->
  StronglySorted key_le ((ky, y) :: l) ->
  StronglySorted key_le ((kx, x) :: (ky, y) :: l).
Proof.
  intros Hx Hl Hxy Hs. constructor; [assumption|].
  constructor; [assumption|].
  inversion Hs as [|? ? _ Hall]; subst.
  inversion Hl as [|? ? Hy Hl']; subst.
  rewrite List.Forall_forall in Hall, Hl'. apply List.Forall_forall.
  intros z Hz. apply (key_le_trans (kx, x) (ky, y) z); auto.
Qed.

Lemma insert_by_ok (kx : list chunk) (x : string) (l : list (list chunk * string)) :
  alt_key true kx = true -> all_alt l ->
  exists r, insert_by kx x l = Ok r /\ Permutation r ((kx, x) :: l) /\ all_alt r /\
            (StronglySorted key_le l -> StronglySorted key_le r).
Proof.
  intros Hx. induction l as [|[ky y] l IH]; intros Hl.
  - exists [(kx, x)]. simpl. split; [reflexivity|]. split; [reflexivity|].
    split; [now constructor|]. intros _. repeat constructor.
  - inversion Hl as [|? ? Hy Hl']; subst. simpl in Hy.
    destruct (key_lt ky kx) as [[|]|] eqn:Hlt.
    + destruct (IH Hl') as (r & Hr & Hperm & Halt & Hsort).
      exists ((ky, y) :: r). simpl. rewrite Hlt. simpl. rewrite Hr. simpl.
      split; [reflexivity|]. split; [|split].
      * rewrite Hperm. apply perm_swap.
      * now constructor.
      * intros Hs. inversion Hs as [|? ? Hs' Hall]; subst.
        constructor; [now apply Hsort|].
        assert (Hall' : Forall (key_le (ky, y)) ((kx, x) :: l)).
        { constructor; [|assumption].
          unfold key_le. simpl. now apply (key_lt_asym ky kx true Hy Hx). }
        rewrite List.Forall_forall in Hall' |- *.
        intros z Hz. apply Hall'.
        apply (Permutation_in z Hperm Hz).
    + exists ((kx, x) :: (ky, y) :: l). simpl. rewrite Hlt. simpl.
      split; [reflexivity|]. split; [reflexivity|]. split; [now constructor|].
      now apply key_le_cons_sorted.
    + rewrite (key_lt_compare ky kx true Hy Hx) in Hlt. discriminate.
Qed.

Lemma sort_decorated_ok (l : list (list chunk * string)) :
  all_alt l ->
  exists r, sort_decorated l = Ok r /\ Permutation r l /\ all_alt r /\
            StronglySorted key_le r.
Proof.
  induction l as [|[k x] l IH]; intros Hl.
  - exists []. repeat split; auto. constructor.
  - inversion Hl as [|? ? Hk Hl']; subst. simpl in Hk.
    destruct (IH Hl') as (s & Hs & Hperm & Halt & Hsort).
    destruct (insert_by_ok k x s Hk Halt) as (r & Hr & Hperm' & Halt' & Hsort').
    exists r. simpl. rewrite Hs. simpl. repeat split; auto.
    rewrite Hperm'. now constructor.
Qed.

Lemma rmap_decorate (l : list string) (ks : list (list chunk * string)) :
  rmap decorate l = Ok ks ->
  map snd ks = l /\ all_alt ks /\
  Forall (fun e => natural_key (snd e) = Ok (fst e)) ks.
Proof.
  revert ks. induction l as [|x l IH]; simpl; intros ks H.
  - inversion H. repeat split; constructor.
  - unfold decorate at 1 in H.
    destruct (natural_key x) as [k|] eqn:Hk; simpl in H; [|discriminate].
    destruct (rmap decorate l) as [ks'|] eqn:Hl; simpl in H; [|discriminate].
    inversion H; subst. destruct (IH ks' eq_refl) as (Hm & Ha & Hn).
    simpl. repeat split.
    + now f_equal.
    + constructor; [|assumption]. simpl. now apply (natural_key_alt x).
    + constructor; assumption.
Qed.

Lemma all_alt_perm (l l' : list (list chunk * string)) :
  Permutation l l' -> all_alt l -> all_alt l'.
Proof.
  unfold all_alt. intros Hp Hl. rewrite List.Forall_forall in Hl |- *.
  intros e He. apply Hl. apply (Permutation_in e (Permutation_sym Hp) He).
Qed.

Lemma sorted_keys_natural (s : list (list chunk * string)) :
  Forall (fun e => natural_key (snd e) = Ok (fst e)) s ->
  StronglySorted key_le s ->
  StronglySorted natural_le (map snd s).
Proof.
  induction s as [|e s IH]; intros Hn Hs; simpl; [constructor|].
  inversion Hn as [|? ? He Hn']; subst.
  inversion Hs as [|? ? Hs' Hall]; subst.
  constructor; [now apply IH|].
  rewrite List.Forall_forall in Hall, Hn'. apply List.Forall_forall.
  intros y Hy. apply in_map_iff in Hy as (e' & <- & He').
  exists (fst e), (fst e'). repeat split; auto.
  apply (Hall e' He').
Qed.

(** When it returns, [sorted] returns the elements it was given, each
    standing before those that follow it in the order of the keys. *)
Lemma sorted_natural_spec (l r : list string) :
  sorted_natural l = Ok r ->
  Permutation r l /\ StronglySorted natural_le r.
Proof.
  unfold sorted_natural. intros H.
  destruct (rmap decorate l) as [ks|] eqn:Hks; simpl in H; [|discriminate].
  destruct (rmap_decorate l ks Hks) as (Hmap & Halt & Hnat).
  destruct (sort_decorated_ok ks Halt) as (s & Hs & Hperm & Halt' & Hsort).
  rewrite Hs in H. simpl in H. inversion H; subst. split.
  - now apply Permutation_map.
  - apply sorted_keys_natural; [|assumption].
    rewrite List.Forall_forall in Hnat |- *. intros e He.
    apply Hnat. apply (Permutation_in e Hperm He).
Qed.

(** [sorted] returns as soon as every key can be computed. *)
Lemma sorted_natural_total (l : list string) :
  Forall (fun x => is_ok (natural_key x) = true) l ->
  exists r, sorted_natural l = Ok r.
Proof.
  intros Hl. unfold sorted_natural.
  assert (Hks : exists ks, rmap decorate l = Ok ks).
  { induction Hl as [|x l Hx Hl IH]; simpl; [now exists []|].
    destruct IH as (ks & ->). unfold decorate at 1.
    destruct (natural_key x) as [k|]; [|discriminate]. simpl. now eexists. }
  destruct Hks as (ks & Hks). rewrite Hks. simpl.
  destruct (rmap_decorate l ks Hks) as (_ & Halt & _).
  destruct (sort_decorated_ok ks Halt) as (s & -> & _). simpl. now eexists.
Qed.

Lemma sorted_natural_nil_inv (l : list string) :
  sorted_natural l = Ok [] -> l = [].
Proof.
  intros H. apply sorted_natural_spec in H as [Hp _].
  now apply Permutation_nil in Hp.
Qed.

(** ** Names that differ in a run of digits *)

Create HintDb natsort.
#[local] Hint Resolve re_split_shape : natsort.
#[local] Hint Constructors same_texts smaller_number : natsort.

Lemma smaller_number_key_lt (la lb : list string) :
  smaller_number la lb -> split_shape la -> split_shape lb ->
  forall ka kb, rmap key_of_chunk la = Ok ka -> rmap key_of_chunk lb = Ok kb ->
  key_lt ka kb = Ok true /\ key_lt kb ka = Ok false.
Proof.
  induction 1 as [t da db la lb Hlt Hsame | t da db la lb Heq Hsm IH];
    intros Ha Hb ka kb Hka Hkb;
    inversion Ha as [|? ? ? Hta Hda Hla]; subst;
    inversion Hb as [|? ? ? Htb Hdb Hlb]; subst;
    simpl in Hka, Hkb;
    destruct (key_of_chunk t) as [c|] eqn:Hc; simpl in Hka, Hkb; try discriminate;
    apply (key_of_text_run t c Hta) in Hc; subst c;
    rewrite (key_of_digit_run da Hda) in Hka; rewrite (key_of_digit_run db Hdb) in Hkb;
    simpl in Hka, Hkb;
    destruct (rmap key_of_chunk la) as [ka'|] eqn:Hka'; simpl in Hka; try discriminate;
    destruct (rmap key_of_chunk lb) as [kb'|] eqn:Hkb'; simpl in Hkb; try discriminate;
    inversion Hka; inversion Hkb; subst; simpl; rewrite String.eqb_refl.
  - rewrite (proj2 (Z.eqb_neq _ _)) by lia.
    rewrite (proj2 (Z.eqb_neq _ _)) by lia.
    rewrite (proj2 (Z.ltb_lt _ _)) by lia.
    rewrite (proj2 (Z.ltb_ge _ _)) by lia. now split.
  - rewrite Heq, Z.eqb_refl. now apply IH.
Qed.

(** Two strings that differ in a run of digits: the key of the one with
    the smaller number is the smaller key, provided both keys can be
    computed. *)
Lemma natural_key_smaller_number (a b : string) (ka kb : list chunk) :
  smaller_number (PyStr.re_split a) (PyStr.re_split b) ->
  natural_key a = Ok ka -> natural_key b = Ok kb ->
  key_lt ka kb = Ok true /\ key_lt kb ka = Ok false.
Proof.
  intros Hsm. apply smaller_number_key_lt; auto with natsort.
Qed.

Lemma sorted_natural_pair (a b : string) (ka kb : list chunk) :
  natural_key a = Ok ka -> natural_key b = Ok kb ->
  key_lt ka kb = Ok true -> key_lt kb ka = Ok false ->
  sorted_natural [a; b] = Ok [a; b] /\ sorted_natural [b; a] = Ok [a; b].
Proof.
  intros Ha Hb Hab Hba. unfold sorted_natural. simpl. unfold decorate.
  rewrite Ha, Hb. simpl. rewrite Hab, Hba. simpl. now split.
Qed.

(** The example of the specification: [p2.jpg] comes before [p10.jpg],
    also behind the path of a folder. *)
Example natural_sort_p2_p10 :
  smaller_number (PyStr.re_split "p2.jpg") (PyStr.re_split "p10.jpg") /\
  sorted_natural ["p10.jpg"; "p2.jpg"] = Ok ["p2.jpg"; "p10.jpg"] /\
  sorted_natural ["/w/input/A/p10.jpg"; "/w/input/A/p2.jpg"]
  = Ok ["/w/input/A/p2.jpg"; "/w/input/A/p10.jpg"].
Proof.
  split; [|split; vm_compute; reflexivity].
  change (PyStr.re_split "p2.jpg") with ["p"; "2"; ".jpg"].
  change (PyStr.re_split "p10.jpg") with ["p"; "10"; ".jpg"].
  apply smaller_here; [vm_compute; reflexivity|auto with natsort].
Qed.

(** ** [sorted] is stable *)

Lemma same_key_eq (k : list chunk) (e : list chunk * string) :
  same_key k e = true <-> fst e = k.
Proof.
  unfold same_key. split.
  - destruct (key_compare k (fst e)) eqn:H; try discriminate.
    intros _. symmetry. now apply key_compare_eq.
  - intros <-. now rewrite key_compare_refl.
Qed.

(** Inserting an element keeps the elements of every key in their order:
    the new element overtakes elements of smaller keys only. *)
Lemma insert_by_stable (kx : list chunk) (x : string)
    (l r : list (list chunk * string)) (k : list chunk) :
  alt_key true kx = true -> all_alt l ->
  insert_by kx x l = Ok r ->
  List.filter (same_key k) r = List.filter (same_key k) ((kx, x) :: l).
Proof.
  intros Hx. revert r. induction l as [|[ky y] l IH]; intros r Hl H; simpl in H.
  - now inversion H.
  - inversion Hl as [|? ? Hy Hl']; subst. simpl in Hy.
    destruct (key_lt ky kx) as [[|]|] eqn:Hlt; simpl in H; try discriminate.
    + destruct (insert_by kx x l) as [r'|] eqn:Hr; simpl in H; [|discriminate].
      inversion H; subst. specialize (IH r' Hl' eq_refl).
      cbn [List.filter] in IH |- *. rewrite IH.
      destruct (same_key k (kx, x)) eqn:Hkx, (same_key k (ky, y)) eqn:Hky;
        try reflexivity.
      apply same_key_eq in Hkx, Hky. simpl in Hkx, Hky. subst kx ky.
      rewrite (key_lt_irrefl k true Hx) in Hlt. discriminate.
    + now inversion H.
Qed.

Lemma sort_decorated_stable (l r : list (list chunk * string)) (k : list chunk) :
  all_alt l -> sort_decorated l = Ok r ->
  List.filter (same_key k) r = List.filter (same_key k) l.
Proof.
  revert r. induction l as [|[kx x] l IH]; intros r Hl H; simpl in H.
  - now inversion H.
  - inversion Hl as [|? ? Hx Hl']; subst. simpl in Hx.
    destruct (sort_decorated l) as [s|] eqn:Hs; simpl in H; [|discriminate].
    destruct (sort_decorated_ok l Hl') as (s' & Hs' & _ & Halt & _).
    assert (s' = s) by congruence. subst s'.
    rewrite (insert_by_stable kx x s r k Hx Halt H).
    cbn [List.filter]. now rewrite (IH s Hl' eq_refl).
Qed.

Lemma filter_has_key (k : list chunk) (s : list (list chunk * string)) :
  Forall (fun e => natural_key (snd e) = Ok (fst e)) s ->
  List.filter (has_key k) (map snd s) = map snd (List.filter (same_key k) s).
Proof.
  induction 1 as [|e s He Hs IH]; simpl; [reflexivity|].
  unfold has_key at 1. rewrite He. fold (same_key k e).
  destruct (same_key k e); simpl; now rewrite IH.
Qed.

(** Strings with the same key leave [sorted] in the order they entered. *)
Lemma sorted_natural_stable (l r : list string) (k : list chunk) :
  sorted_natural l = Ok r ->
  List.filter (has_key k) r = List.filter (has_key k) l.
Proof.
  unfold sorted_natural. intros H.
  destruct (rmap decorate l) as [ks|] eqn:Hks; simpl in H; [|discriminate].
  destruct (rmap_decorate l ks Hks) as (Hmap & Halt & Hnat).
  destruct (sort_decorated ks) as [s|] eqn:Hs; simpl in H; [|discriminate].
  inversion H; subst r. clear H.
  destruct (sort_decorated_ok ks Halt) as (s' & Hs' & Hperm & _ & _).
  assert (s' = s) by congruence. subst s'.
  assert (Hnat' : Forall (fun e => natural_key (snd e) = Ok (fst e)) s).
  { rewrite List.Forall_forall in Hnat |- *. intros e He.
    apply Hnat. apply (Permutation_in e Hperm He). }
  rewrite (filter_has_key k s Hnat'), (sort_decorated_stable ks s k Halt Hs).
  rewrite <- (filter_has_key k ks Hnat). now rewrite Hmap.
Qed.

(** ** Paths *)

Lemma basename_no_sep (f : string) :
  PyStr.contains_char "/" f = false -> PyStr.basename f = f.
Proof.
  destruct f as [|c f]; [reflexivity|].
  intros H. unfold PyStr.basename. now rewrite H.
Qed.

Lemma contains_char_app (c : ascii) (a b : string) :
  PyStr.contains_char c (a +:+ b) =
  PyStr.contains_char c a || PyStr.contains_char c b.
Proof.
  induction a as [|d a IH]; simpl; [reflexivity|].
  rewrite IH. now rewrite orb_assoc.
Qed.

Lemma basename_join (d f : string) :
  PyStr.contains_char "/" f = false -> PyStr.basename (PyStr.join d f) = f.
Proof.
  intros Hf. unfold PyStr.join.
  induction d as [|c d IH].
  - simpl. destruct f as [|c f]; [reflexivity|].
    change (PyStr.basename (String c f) = String c f). now apply basename_no_sep.
  - change (String c d +:+ "/" +:+ f) with (String c (d +:+ "/" +:+ f)).
    cbn [PyStr.basename].
    replace (PyStr.contains_char "/" (String c (d +:+ "/" +:+ f))) with true; [exact IH|].
    cbn [PyStr.contains_char]. rewrite contains_char_app.
    simpl. now rewrite !orb_true_r.
Qed.

Lemma join_inj (d f g : string) : PyStr.join d f = PyStr.join d g -> f = g.
Proof.
  unfold PyStr.join. induction d as [|c d IH]; simpl; intros H.
  - now inversion H.
  - inversion H. now apply IH.
Qed.

Lemma temp_path_join (w : world) (d f : string) :
  PyStr.contains_char "/" f = false ->
  temp_path w (PyStr.join d f) = PyStr.join (temp_dir w) f.
Proof. intros Hf. unfold temp_path. now rewrite basename_join. Qed.

(** The staged paths of the recognized files of a folder are distinct. *)
Lemma temp_paths_NoDup (w : world) (d : string) (names : list string) :
  wf_listing names ->
  NoDup (map (temp_path w) (map (PyStr.join d) names)).
Proof.
  intros [Hnd Hsep]. induction names as [|f names IH]; simpl; [constructor|].
  inversion Hnd as [|? ? Hf Hnd']; subst.
  inversion Hsep as [|? ? Hsf Hsep']; subst.
  constructor; [|now apply IH].
  rewrite (temp_path_join w d f Hsf). intros Hin.
  apply list_elem_of_In, in_map_iff in Hin as (p & Hp & Hin).
  apply in_map_iff in Hin as (g & <- & Hg).
  rewrite List.Forall_forall in Hsep'.
  rewrite (temp_path_join w d g (Hsep' g Hg)) in Hp.
  apply join_inj in Hp. subst g. apply Hf. now apply list_elem_of_In.
Qed.

Lemma wf_listing_filter (names : list string) (f : string -> bool) :
  wf_listing names -> wf_listing (List.filter f names).
Proof.
  intros [Hnd Hsep]. split.
  - apply NoDup_ListNoDup. apply List.NoDup_filter. now apply NoDup_ListNoDup.
  - rewrite List.Forall_forall in Hsep |- *.
    intros x Hx. apply List.filter_In in Hx as [Hx _]. now apply Hsep.
Qed.

Lemma recognized_temp_paths_NoDup (w : world) (folder_name : string) :
  wf_listing (listdir w (folder_path w folder_name)) ->
  NoDup (map (temp_path w) (recognized_paths w folder_name)).
Proof.
  intros Hwf. unfold recognized_paths.
  apply temp_paths_NoDup. now apply wf_listing_filter.
Qed.

(** ** One image *)

(** The library calls keep the path the image was decoded from. *)
Section Imaging.

Variable w : world.

Lemma decoded_src (p : string) (img : image) :
  decoded w p = Ok img -> im_src img = p.
Proof.
  unfold decoded. destruct (decode w p) as [[sz md]|]; [|discriminate].
  now intros [= <-].
Qed.

Lemma resize_src (img : image) (sz : Z * Z) (img' : image) :
  resize w img sz = Ok img' -> im_src img' = im_src img.
Proof.
  unfold resize. destruct (resize_ok w img sz); [|discriminate].
  now intros [= <-].
Qed.

Lemma adjust_src (pol : policy) (target : option (Z * Z)) (img img' : image) :
  adjust w pol target img = Ok img' -> im_src img' = im_src img.
Proof.
  unfold adjust.
  destruct pol; try apply resize_src;
    (destruct target as [t|]; [destruct (negb (size_eqb (im_size img) t))|];
     try apply resize_src; now intros [= <-]).
Qed.

Lemma drop_alpha_src (img img' : image) :
  drop_alpha w img = Ok img' -> im_src img' = im_src img.
Proof.
  unfold drop_alpha, convert_RGB.
  destruct (String.eqb (im_mode img) "RGBA"); [destruct (convert_ok w img)|];
    try discriminate; now intros [= <-].
Qed.

End Imaging.

(** The images of one folder, under one policy and one target size. *)
Section Staging.

Variable w : world.
Variable pol : policy.
Variable target : option (Z * Z).

Lemma conversion_src (p : string) (img : image) :
  conversion w pol target p = Ok img -> im_src img = p.
Proof.
  unfold conversion.
  destruct (decoded w p) as [i|] eqn:Hi; [|destruct pol; discriminate].
  apply decoded_src in Hi.
  destruct pol; cbn [rbind];
    try (destruct (adjust w _ target i) as [j|] eqn:Hj; cbn [rbind]; [|discriminate];
         apply adjust_src in Hj; intros Hk; apply drop_alpha_src in Hk; congruence).
  intros Hk. apply drop_alpha_src in Hk. congruence.
Qed.

Lemma stage_outcome_src (p : string) (img : image) :
  stage_outcome w pol target p = Ok img -> im_src img = p.
Proof.
  unfold stage_outcome.
  destruct (conversion w pol target p) as [i|] eqn:Hi; simpl; [|discriminate].
  destruct (save_result w i (temp_path w p)); try discriminate.
  intros [= <-]. cbn [im_src]. now apply (conversion_src).
Qed.

(** The [try] body of one image, in terms of [conversion]. *)
Lemma stage_image_eq (p : string) (st : state) :
  stage_image w pol target p st =
  match conversion w pol target p with
  | Raise e => (Raise e, add_opened p st)
  | Ok img =>
      match save w img (temp_path w p) (add_opened p st) with
      | (Ok _, st') => (Ok (temp_path w p), st')
      | (Raise e, st') => (Raise e, st')
      end
  end.
Proof.
  unfold stage_image, conversion, Image_open, decoded, bind, lift, ret.
  destruct pol; destruct (decode w p) as [[sz md]|]; cbn [rbind]; try reflexivity;
    try (destruct (adjust w _ target (mkImage p sz md)) as [j|];
         cbn [rbind]; [|reflexivity]);
    match goal with
    | |- context [drop_alpha w ?i] => destruct (drop_alpha w i); reflexivity
    end.
Qed.

(** One turn of the loop of lines 105-137. *)
Lemma stage_step (p : string) (acc : list string) (st : state) (m : gmap string image) :
  temp st = Some m ->
  exists m',
    try_except
      (q <~ stage_image w pol target p ; ret (acc ++ [q])%list)
      (fun e => _ <~ modify (add_log (Failed p e)) ; ret acc) st
    = (Ok (acc ++ staged_paths w pol target [p])%list,
       mkState (Some m') (output st)
               (log st ++ failures w pol target [p])%list
               (opened st ++ [p])%list) /\
    (forall q, q <> temp_path w p -> m' !! q = m !! q) /\
    (forall img, stage_outcome w pol target p = Ok img ->
                 m' !! temp_path w p = Some img).
Proof.
  intros Hm. unfold try_except, bind. rewrite stage_image_eq.
  destruct (conversion w pol target p) as [img|e] eqn:Hc.
  - unfold save. cbn [temp add_opened]. rewrite Hm.
    destruct (save_result w img (temp_path w p)) as [md| |] eqn:Hs.
    + assert (Ho : stage_outcome w pol target p
                   = Ok (mkImage (im_src img) (im_size img) md)).
      { unfold stage_outcome. rewrite Hc. cbn [rbind]. now rewrite Hs. }
      exists (<[temp_path w p := mkImage (im_src img) (im_size img) md]> m).
      split; [|split].
      * cbn [staged_paths failures]. rewrite Ho.
        unfold ret, set_temp, add_opened. cbn [temp output log opened].
        now rewrite app_nil_r.
      * intros q Hq. now rewrite lookup_insert_ne.
      * intros img' Himg. rewrite Ho in Himg. inversion Himg; subst.
        apply lookup_insert_eq.
    + assert (Ho : stage_outcome w pol target p = Raise ImageError).
      { unfold stage_outcome. rewrite Hc. cbn [rbind]. now rewrite Hs. }
      exists m. split; [|split]; [|auto|congruence].
      cbn [staged_paths failures]. rewrite Ho.
      unfold ret, modify, add_log, add_opened. cbn [temp output log opened].
      now rewrite app_nil_r, Hm.
    + assert (Ho : stage_outcome w pol target p = Raise ImageError).
      { unfold stage_outcome. rewrite Hc. cbn [rbind]. now rewrite Hs. }
      exists (delete (temp_path w p) m). split; [|split]; [| |congruence].
      * cbn [staged_paths failures]. rewrite Ho.
        unfold ret, modify, add_log, set_temp, add_opened.
        cbn [temp output log opened]. now rewrite app_nil_r.
      * intros q Hq. now rewrite lookup_delete_ne.
  - assert (Ho : stage_outcome w pol target p = Raise e).
    { unfold stage_outcome. now rewrite Hc. }
    exists m. split; [|split]; [|auto|congruence].
    cbn [staged_paths failures]. rewrite Ho.
    unfold ret, modify, add_log, add_opened. cbn [temp output log opened].
    now rewrite app_nil_r, Hm.
Qed.

(** ** The loop over the images of a folder *)

Lemma staged_paths_cons (p : string) (files : list string) :
  staged_paths w pol target (p :: files) =
  (staged_paths w pol target [p] ++ staged_paths w pol target files)%list.
Proof. simpl. now destruct (stage_outcome w pol target p). Qed.

Lemma failures_cons (p : string) (files : list string) :
  failures w pol target (p :: files) =
  (failures w pol target [p] ++ failures w pol target files)%list.
Proof. simpl. now destruct (stage_outcome w pol target p). Qed.

(** The loop never raises.  It returns the staged paths of the images that
    did not fail, appended to the list it started with; it prints one line
    for each image that failed; it writes the staging directory at the
    staged paths of the folder only, and leaves the output alone. *)
Lemma stage_all_spec (files : list string) :
  forall (acc : list string) (st : state) (m : gmap string image),
  temp st = Some m ->
  exists m',
    stage_all w pol target files acc st
    = (Ok (acc ++ staged_paths w pol target files)%list,
       mkState (Some m') (output st)
               (log st ++ failures w pol target files)%list
               (opened st ++ files)%list) /\
    (forall q, q ∉ map (temp_path w) files -> m' !! q = m !! q) /\
    (NoDup (map (temp_path w) files) ->
     forall p img, p ∈ files -> stage_outcome w pol target p = Ok img ->
                   m' !! temp_path w p = Some img).
Proof.
  induction files as [|p files IH]; intros acc st m Hm.
  - exists m. simpl. unfold ret. rewrite !app_nil_r. split; [|split].
    + destruct st; simpl in *. now subst.
    + auto.
    + intros _ p img Hp. now apply elem_of_nil in Hp.
  - destruct (stage_step p acc st m Hm) as (m1 & Hstep & Hframe1 & Hhit1).
    cbn [stage_all]. unfold bind at 1. rewrite Hstep.
    destruct (IH (acc ++ staged_paths w pol target [p])%list
                 (mkState (Some m1) (output st)
                          (log st ++ failures w pol target [p])%list
                          (opened st ++ [p])%list) m1 eq_refl)
      as (m' & Hall & Hframe & Hhit).
    exists m'. split; [|split].
    + rewrite Hall. cbn [output log opened].
      rewrite (staged_paths_cons p files),
        (failures_cons p files).
      now rewrite <- !app_assoc.
    + intros q Hq. rewrite Hframe, Hframe1; [reflexivity| |].
      * intros ->. apply Hq. simpl. apply elem_of_cons. now left.
      * intros Hin. apply Hq. simpl. apply elem_of_cons. now right.
    + intros Hnd q img Hq Himg. simpl in Hnd.
      apply NoDup_cons in Hnd as [Hp Hnd].
      apply elem_of_cons in Hq as [->|Hq].
      * rewrite (Hframe _ Hp). now apply Hhit1.
      * now apply Hhit.
Qed.

Lemma read_staged (m : gmap string image) (files : list string) :
  (forall p img, p ∈ files -> stage_outcome w pol target p = Ok img ->
                 m !! temp_path w p = Some img) ->
  read_files m (staged_paths w pol target files)
  = Some (staged_images w pol target files).
Proof.
  induction files as [|p files IH]; intros H; simpl; [reflexivity|].
  assert (IH' := IH (fun q img Hq => H q img (proj2 (elem_of_cons _ _ _) (or_intror Hq)))).
  destruct (stage_outcome w pol target p) as [img|e] eqn:Hp; [|exact IH'].
  simpl. rewrite (H p img (proj2 (elem_of_cons _ _ _) (or_introl eq_refl)) Hp).
  now rewrite IH'.
Qed.

(** The staging directory holds the staged images at the staged paths. *)
Lemma staged_lookup (m : gmap string image) (files : list string) :
  (forall p img, p ∈ files -> stage_outcome w pol target p = Ok img ->
                 m !! temp_path w p = Some img) ->
  Forall2 (fun path page => m !! path = Some page)
          (staged_paths w pol target files) (staged_images w pol target files).
Proof.
  induction files as [|p files IH]; intros H; simpl; [constructor|].
  assert (IH' := IH (fun q img Hq => H q img (proj2 (elem_of_cons _ _ _) (or_intror Hq)))).
  destruct (stage_outcome w pol target p) as [img|e] eqn:Hp; [|exact IH'].
  constructor; [|exact IH'].
  exact (H p img (proj2 (elem_of_cons _ _ _) (or_introl eq_refl)) Hp).
Qed.

Lemma staged_paths_nil_iff (files : list string) :
  staged_paths w pol target files = [] <-> staged_images w pol target files = [].
Proof.
  induction files as [|p files IH]; simpl; [tauto|].
  destruct (stage_outcome w pol target p); [|exact IH].
  split; discriminate.
Qed.

Lemma failures_are_failed (files : list string) :
  Forall (fun ev => exists p e, ev = Failed p e /\ p ∈ files /\
                                stage_outcome w pol target p = Raise e)
         (failures w pol target files).
Proof.
  induction files as [|p files IH]; simpl; [constructor|].
  assert (IH' : Forall (fun ev => exists q e, ev = Failed q e /\ q ∈ p :: files /\
                                stage_outcome w pol target q = Raise e)
                       (failures w pol target files)).
  { eapply Forall_impl; [exact IH|]. intros ev (q & e & -> & Hq & He).
    exists q, e. repeat split; auto. apply elem_of_cons. now right. }
  destruct (stage_outcome w pol target p) as [img|e] eqn:Hp; [exact IH'|].
  constructor; [|exact IH'].
  exists p, e. repeat split; auto. apply elem_of_cons. now left.
Qed.

Lemma failures_complete (files : list string) (p : string) (e : exn) :
  p ∈ files -> stage_outcome w pol target p = Raise e ->
  Failed p e ∈ failures w pol target files.
Proof.
  induction files as [|q files IH]; intros Hp He.
  - now apply elem_of_nil in Hp.
  - apply elem_of_cons in Hp as [->|Hp]; simpl.
    + rewrite He. apply elem_of_cons. now left.
    + destruct (stage_outcome w pol target q); [now apply IH|].
      apply elem_of_cons. right. now apply IH.
Qed.

End Staging.

(** ** The target size *)

Lemma Image_open_eq (w : world) (p : string) (st : state) :
  Image_open w p st = (decoded w p, add_opened p st).
Proof.
  unfold Image_open, decoded. now destruct (decode w p) as [[sz md]|].
Qed.

(** Reading the sizes touches nothing but the record of the calls. *)
Lemma open_sizes_frame (w : world) (files : list string) :
  forall st r st', open_sizes w files st = (r, st') ->
  temp st' = temp st /\ output st' = output st /\ log st' = log st.
Proof.
  induction files as [|f files IH]; intros st r st' H; simpl in H.
  - inversion H. auto.
  - unfold bind in H. rewrite Image_open_eq in H.
    destruct (decoded w f) as [img|e].
    + destruct (open_sizes w files (add_opened f st)) as [[sizes|e] st1] eqn:Hs;
        apply IH in Hs; unfold ret in H; inversion H; subst; exact Hs.
    + inversion H. auto.
Qed.

Lemma open_sizes_all (w : world) (files : list string) (imgs : list image) :
  rmap (decoded w) files = Ok imgs ->
  forall st, open_sizes w files st
             = (Ok (map im_size imgs),
                mkState (temp st) (output st) (log st) (opened st ++ files)%list).
Proof.
  revert imgs. induction files as [|f files IH]; intros imgs H st; simpl in H.
  - inversion H. simpl. unfold ret. rewrite app_nil_r. now destruct st.
  - destruct (decoded w f) as [img|] eqn:Hf; simpl in H; [|discriminate].
    destruct (rmap (decoded w) files) as [imgs'|] eqn:Hfs; simpl in H; [|discriminate].
    inversion H; subst. simpl. unfold bind. rewrite Image_open_eq, Hf.
    rewrite (IH imgs' eq_refl). unfold ret, add_opened. simpl.
    now rewrite <- app_assoc.
Qed.

Lemma resolve_target_frame (w : world) (pol : policy) (files : list string)
    (st : state) (r : result (option (Z * Z))) (st' : state) :
  resolve_target w pol files st = (r, st') ->
  temp st' = temp st /\ output st' = output st /\ log st' = log st.
Proof.
  destruct pol; simpl; unfold ret; try (intros [= <- <-]; now auto).
  - unfold bind, lift.
    destruct (py_index files _) as [f|e]; [|intros [= <- <-]; now auto].
    rewrite Image_open_eq.
    destruct (decoded w f); intros [= <- <-]; auto.
  - unfold bind at 1.
    destruct (open_sizes w files st) as [[sizes|e] st1] eqn:Hs;
      apply open_sizes_frame in Hs; [|intros [= <- <-]; exact Hs].
    unfold bind, lift, ret.
    destruct (py_max (map fst sizes)); [|intros [= <- <-]; exact Hs].
    destruct (py_max (map snd sizes)); intros [= <- <-]; exact Hs.
Qed.

Lemma fold_left_max_is_max (l : list Z) (x : Z) :
  is_max (x :: l) (fold_left Z.max l x).
Proof.
  revert x. induction l as [|y l IH]; intros x; simpl.
  - split; [now left|]. constructor; [lia|constructor].
  - destruct (IH (Z.max x y)) as [Hin Hall]. split.
    + destruct Hin as [Heq|Hin]; [|now right; right].
      rewrite <- Heq. destruct (Z.max_spec x y) as [[_ ->]|[_ ->]]; simpl; auto.
    + inversion Hall as [|? ? Hxy Hl]; subst.
      constructor; [lia|]. constructor; [lia|assumption].
Qed.

Lemma py_max_is_max (l : list Z) :
  l <> [] -> exists m, py_max l = Ok m /\ is_max l m.
Proof.
  destruct l as [|x l]; [congruence|]. intros _.
  exists (fold_left Z.max l x). split; [reflexivity|].
  apply fold_left_max_is_max.
Qed.

(** ** Writing the PDF *)

Lemma write_pdf_nil (w : world) (folder_name : string) (st : state) :
  write_pdf w folder_name [] st = (Ok tt, st).
Proof. reflexivity. Qed.

Lemma write_pdf_cons (w : world) (folder_name : string) (paths : list string)
    (st : state) (m : gmap string image) (pages : list image) :
  paths <> [] -> temp st = Some m -> read_files m paths = Some pages ->
  write_pdf w folder_name paths st =
  if pdf_ok w pages then
    (Ok tt,
     add_log (Generated (pdf_path w folder_name))
       (set_output (<[pdf_path w folder_name := Pdf pages]>
                      (<[pdf_path w folder_name := EmptyFile]> (output st))) st))
  else
    (Raise PdfError,
     set_output (<[pdf_path w folder_name := EmptyFile]> (output st)) st).
Proof.
  intros Hne Hm Hread. destruct paths as [|q paths]; [congruence|].
  unfold write_pdf, bind, modify, img2pdf_convert.
  cbn [temp set_output]. rewrite Hm, Hread.
  destruct (pdf_ok w pages); [|reflexivity].
  unfold set_output, add_log. now cbn [temp output log opened].
Qed.

(** ** One folder *)

Lemma image_files_eq (w : world) (folder_name : string) :
  image_files w folder_name = sorted_natural (recognized_paths w folder_name).
Proof. reflexivity. Qed.

Lemma image_files_spec (w : world) (folder_name : string) (files : list string) :
  image_files w folder_name = Ok files ->
  Permutation files (recognized_paths w folder_name) /\
  StronglySorted natural_le files.
Proof. rewrite image_files_eq. apply sorted_natural_spec. Qed.

Lemma image_files_stable (w : world) (folder_name : string) (files : list string)
    (k : list chunk) :
  image_files w folder_name = Ok files ->
  List.filter (has_key k) files
  = List.filter (has_key k) (recognized_paths w folder_name).
Proof. rewrite image_files_eq. apply sorted_natural_stable. Qed.

Lemma image_files_NoDup (w : world) (folder_name : string) (files : list string) :
  wf_listing (listdir w (folder_path w folder_name)) ->
  image_files w folder_name = Ok files ->
  NoDup (map (temp_path w) files).
Proof.
  intros Hwf Hfiles. apply image_files_spec in Hfiles as [Hperm _].
  apply (Permutation_map (temp_path w)) in Hperm.
  rewrite Hperm. now apply recognized_temp_paths_NoDup.
Qed.

(** What processing a folder does once its images are listed and its
    target size is resolved. *)
Lemma process_folder_staged (w : world) (pol : policy) (folder_name : string)
    (st st1 : state) (m : gmap string image) (files : list string)
    (target : option (Z * Z)) :
  isdir w (folder_path w folder_name) = true ->
  image_files w folder_name = Ok files -> files <> [] ->
  resolve_target w pol files st = (Ok target, st1) ->
  temp st = Some m ->
  NoDup (map (temp_path w) files) ->
  exists m',
    let st2 := mkState (Some m') (output st)
                 (log st ++ failures w pol target files)%list
                 (opened st1 ++ files)%list in
    (forall q, q ∉ map (temp_path w) files -> m' !! q = m !! q) /\
    process_folder w pol folder_name st =
    match staged_images w pol target files with
    | [] => (Ok tt, st2)
    | _ :: _ =>
        if pdf_ok w (staged_images w pol target files) then
          (Ok tt,
           add_log (Generated (pdf_path w folder_name))
             (set_output (<[pdf_path w folder_name := Pdf (staged_images w pol target files)]>
                            (<[pdf_path w folder_name := EmptyFile]> (output st))) st2))
        else
          (Raise PdfError,
           set_output (<[pdf_path w folder_name := EmptyFile]> (output st)) st2)
    end.
Proof.
  intros Hdir Hfiles Hne Hres Hm Hnd.
  destruct (resolve_target_frame w pol files st _ st1 Hres) as (Ht1 & Ho1 & Hl1).
  assert (Hm1 : temp st1 = Some m) by congruence.
  destruct (stage_all_spec w pol target files [] st1 m Hm1) as (m' & Hall & Hframe & Hhit).
  exists m'. cbn zeta. split; [exact Hframe|].
  unfold process_folder. rewrite Hdir. cbn [negb].
  unfold bind at 1. unfold lift. rewrite Hfiles.
  destruct files as [|f files']; [congruence|].
  unfold bind at 1. rewrite Hres.
  unfold bind at 1. rewrite Hall. cbn [app].
  rewrite Ho1, Hl1.
  pose proof (read_staged w pol target m' (f :: files') (Hhit Hnd)) as Hread.
  destruct (staged_images w pol target (f :: files')) as [|pg pages] eqn:Hst.
  - apply staged_paths_nil_iff in Hst. rewrite Hst. apply write_pdf_nil.
  - assert (Hp : staged_paths w pol target (f :: files') <> []).
    { intros Hp. apply staged_paths_nil_iff in Hp. congruence. }
    rewrite (write_pdf_cons w folder_name _ _ m' (pg :: pages) Hp);
      [reflexivity | reflexivity | exact Hread].
Qed.

(** ** The log of a folder *)

Lemma app_cancel_self {A : Type} (l evs : list A) (x : A) :
  l <> (l ++ evs ++ [x])%list.
Proof.
  intros H. apply (f_equal (@length A)) in H.
  rewrite !length_app in H. simpl in H. lia.
Qed.

Lemma yields_pdf_same_log (w : world) (folder_name : string) (st st' : state) :
  log st' = log st -> ~ yields_pdf w folder_name st st'.
Proof.
  intros Hlog (evs & H). rewrite Hlog in H. now apply app_cancel_self in H.
Qed.

Lemma yields_pdf_last (w : world) (folder_name : string) (st st' : state)
    (evs : list event) :
  log st' = (log st ++ evs)%list -> yields_pdf w folder_name st st' ->
  last evs = Some (Generated (pdf_path w folder_name)).
Proof.
  intros Hlog (evs' & H). rewrite Hlog in H. apply app_inv_head in H.
  subst evs. apply last_snoc.
Qed.

Lemma failures_last (w : world) (pol : policy) (target : option (Z * Z))
    (files : list string) (pdf : string) :
  last (failures w pol target files) <> Some (Generated pdf).
Proof.
  intros H. apply last_Some in H as (l' & H).
  pose proof (failures_are_failed w pol target files) as Hall.
  rewrite H in Hall. apply Forall_app in Hall as [_ Hall].
  inversion Hall as [|? ? (p & e & Heq & _) _]. discriminate.
Qed.

(** A folder that yields a PDF: its images were listed, its target size was
    resolved, and the PDF holds the staged conversions of the images that
    did not fail. *)
Lemma process_folder_yields (w : world) (pol : policy) (folder_name : string)
    (st st' : state) (r : result unit) (m : gmap string image) :
  temp st = Some m ->
  wf_listing (listdir w (folder_path w folder_name)) ->
  process_folder w pol folder_name st = (r, st') ->
  yields_pdf w folder_name st st' ->
  exists files target st1,
    image_files w folder_name = Ok files /\
    resolve_target w pol files st = (Ok target, st1) /\
    r = Ok tt /\
    output st' !! pdf_path w folder_name
    = Some (Pdf (staged_images w pol target files)).
Proof.
  intros Hm Hwf Hrun Hy.
  destruct (isdir w (folder_path w folder_name)) eqn:Hdir.
  2:{ unfold process_folder in Hrun. rewrite Hdir in Hrun.
      inversion Hrun; subst. now apply yields_pdf_same_log in Hy. }
  destruct (image_files w folder_name) as [files|e] eqn:Hfiles.
  2:{ unfold process_folder, bind, lift in Hrun. rewrite Hdir, Hfiles in Hrun.
      inversion Hrun; subst. now apply yields_pdf_same_log in Hy. }
  destruct files as [|f files'].
  { unfold process_folder, bind, lift, modify in Hrun. rewrite Hdir, Hfiles in Hrun.
    inversion Hrun; subst.
    apply (yields_pdf_last w folder_name st _ [Skipped folder_name]) in Hy;
      [discriminate|reflexivity]. }
  destruct (resolve_target w pol (f :: files') st) as [[target|e] st1] eqn:Hres.
  2:{ unfold process_folder, bind, lift in Hrun. rewrite Hdir, Hfiles in Hrun.
      cbn [negb] in Hrun. rewrite Hres in Hrun. inversion Hrun; subst.
      apply resolve_target_frame in Hres as (_ & _ & Hlog).
      now apply yields_pdf_same_log in Hy. }
  pose proof (image_files_NoDup w folder_name _ Hwf Hfiles) as Hnd.
  destruct (process_folder_staged w pol folder_name st st1 m (f :: files') target
              Hdir Hfiles ltac:(discriminate) Hres Hm Hnd) as (m' & _ & Heq).
  cbn zeta in Heq. rewrite Heq in Hrun. clear Heq.
  exists (f :: files'), target, st1. split; [reflexivity|]. split; [exact Hres|].
  destruct (staged_images w pol target (f :: files')) as [|pg pages] eqn:Hst.
  { inversion Hrun; subst.
    apply (yields_pdf_last w folder_name st _ (failures w pol target (f :: files'))) in Hy;
      [|reflexivity].
    now apply failures_last in Hy. }
  destruct (pdf_ok w (pg :: pages)).
  - inversion Hrun; subst. split; [reflexivity|].
    unfold add_log, set_output. cbn [output]. apply lookup_insert_eq.
  - inversion Hrun; subst.
    apply (yields_pdf_last w folder_name st _ (failures w pol target (f :: files'))) in Hy;
      [|reflexivity].
    now apply failures_last in Hy.
Qed.

(** When no image fails, the staged images are those of the files, one for
    one. *)
Lemma staged_images_all (w : world) (pol : policy) (target : option (Z * Z))
    (files : list string) :
  Forall (fun p => is_ok (stage_outcome w pol target p) = true) files ->
  Forall2 (fun p img => stage_outcome w pol target p = Ok img)
          files (staged_images w pol target files).
Proof.
  induction 1 as [|p files Hp Hfiles IH]; simpl; [constructor|].
  destruct (stage_outcome w pol target p) as [img|e] eqn:Ho; [|discriminate].
  now constructor.
Qed.

Lemma staged_images_own (w : world) (pol : policy) (target : option (Z * Z))
    (files : list string) :
  Forall (fun img => exists p, p ∈ files /\ stage_outcome w pol target p = Ok img)
         (staged_images w pol target files).
Proof.
  induction files as [|p files IH]; simpl; [constructor|].
  assert (IH' : Forall (fun img => exists q, q ∈ p :: files /\
                                   stage_outcome w pol target q = Ok img)
                       (staged_images w pol target files)).
  { eapply Forall_impl; [exact IH|]. intros img (q & Hq & Ho).
    exists q. split; [|assumption]. apply elem_of_cons. now right. }
  destruct (stage_outcome w pol target p) as [img|e] eqn:Ho; [|exact IH'].
  constructor; [|exact IH'].
  exists p. split; [|assumption]. apply elem_of_cons. now left.
Qed.

(** ** The run *)

(** Whatever the body does, the [finally] clause removes the staging
    directory. *)
Lemma try_finally_rmtree {A : Type} (body : M A) (st : state) :
  temp (snd (try_finally body rmtree_temp st)) = None.
Proof.
  unfold try_finally, rmtree_temp, modify.
  destruct (body st) as [r st']. simpl.
  destruct (temp st') eqn:Ht; simpl; [reflexivity|assumption].
Qed.

(** Once the policy is chosen, every way out of [process_images] removes
    the staging directory. *)
Lemma process_images_cleanup (w : world) (lines : list string) (pol : policy)
    (st : state) :
  get_user_choice lines = Ok pol ->
  temp (snd (process_images w lines st)) = None.
Proof.
  intros Hpol. unfold process_images, bind, makedirs_temp, modify, lift.
  rewrite Hpol. apply try_finally_rmtree.
Qed.

(** An exception at the prompt leaves [process_images] before the [try]. *)
Lemma process_images_prompt_raises (w : world) (lines : list string) (e : exn)
    (st : state) :
  get_user_choice lines = Raise e ->
  process_images w lines st
  = (Raise e, match temp st with Some _ => st | None => set_temp (Some ∅) st end).
Proof.
  intros Hpol. unfold process_images, bind, makedirs_temp, modify, lift.
  now rewrite Hpol.
Qed.

(** The numbers the prompt can return for the N-th image are not negative. *)
Lemma parse_digits_nonneg (s : string) :
  forall acc b v, 0 <= acc -> PyStr.parse_digits acc b s = Some v -> 0 <= v.
Proof.
  induction s as [|c s IH]; simpl; intros acc b v Hacc H.
  - destruct b; [|discriminate]. inversion H; subst. exact Hacc.
  - destruct (PyStr.is_09 c) eqn:Hc.
    + apply (IH (10 * acc + PyStr.digit_val c) true v); [|exact H].
      unfold PyStr.is_09 in Hc. apply andb_prop in Hc as [Hlo _].
      apply N.leb_le in Hlo. unfold PyStr.digit_val. lia.
    + destruct (Ascii.eqb c "_"); [|discriminate].
      destruct b; [|discriminate]. now apply (IH acc false v Hacc).
Qed.

Lemma int_or_default_nonneg (s : string) (d v : Z) :
  0 <= d -> int_or_default s d = Ok v -> 0 <= v.
Proof.
  intros Hd. unfold int_or_default.
  destruct (PyStr.isdigit s) eqn:Hs; [|now intros [= <-]].
  unfold PyStr.isdigit in Hs. apply andb_prop in Hs as [Hne Hall].
  unfold PyStr.int. rewrite (isdigit_int_strip s Hall).
  destruct s as [|c s]; [discriminate|].
  simpl in Hall. apply andb_prop in Hall as [Hc _].
  destruct (isdigit_char_not_sign c Hc) as (-> & -> & _).
  destruct (PyStr.parse_digits 0 false (String c s)) as [z|] eqn:Hp; [|discriminate].
  intros [= <-]. now apply (parse_digits_nonneg _ 0 false z) in Hp.
Qed.

Lemma get_user_choice_nth_nonneg (lines : list string) (n : Z) :
  get_user_choice lines = Ok (use_nth_image n) -> 0 <= n.
Proof.
  assert (Hres : forall l, ~ read_resolution l = Ok (use_nth_image n)).
  { induction l as [|x l IH]; simpl; [discriminate|].
    destruct (PyStr.contains_char "x" (PyStr.lower (PyStr.strip x))); [|exact IH].
    destruct (rmap PyStr.int _) as [[|a [|b [|c ?]]]|]; try exact IH. discriminate. }
  unfold get_user_choice. destruct lines as [|l rest]; [discriminate|].
  cbv zeta.
  generalize (if PyStr.is_empty (PyStr.strip l) then "1" else PyStr.strip l).
  intros choice.
  destruct (String.eqb choice "1").
  { destruct rest as [|x rest]; [discriminate|].
    destruct (int_or_default (PyStr.strip x) 3) as [v|] eqn:Hv; simpl; [|discriminate].
    intros [= <-]. apply (int_or_default_nonneg (PyStr.strip x) 3 v); [lia|exact Hv]. }
  destruct (String.eqb choice "2"); [discriminate|].
  destruct (String.eqb choice "3"); [intros H; now apply Hres in H|].
  destruct (String.eqb choice "4").
  { destruct rest as [|x rest]; [discriminate|].
    destruct (int_or_default (PyStr.strip x) 800); discriminate. }
  destruct (String.eqb choice "5").
  { destruct rest as [|x rest]; [discriminate|].
    destruct (int_or_default (PyStr.strip x) 600); discriminate. }
  destruct (String.eqb choice "6"); [discriminate|].
  intros [= <-]. lia.
Qed.

(** ** The N-th image *)

(** For [1 <= n] the index is [n - 1] clamped to the last position. *)
Lemma py_index_clamped {A : Type} (files : list A) (n : Z) :
  files <> [] -> 1 <= n ->
  let i := Z.min (n - 1) (Z.of_nat (length files) - 1) in
  0 <= i <= Z.of_nat (length files) - 1 /\
  exists f, nth_error files (Z.to_nat i) = Some f /\ py_index files i = Ok f.
Proof.
  intros Hne Hn i.
  assert (Hlen : 0 < Z.of_nat (length files)).
  { destruct files; [congruence|]. simpl. lia. }
  assert (Hi : 0 <= i <= Z.of_nat (length files) - 1) by (unfold i; lia).
  split; [exact Hi|].
  destruct (nth_error files (Z.to_nat i)) as [f|] eqn:Hf.
  - exists f. split; [reflexivity|]. unfold py_index.
    rewrite (proj2 (Z.ltb_ge _ _)) by lia.
    rewrite (proj2 (Z.leb_le _ _)) by lia.
    rewrite (proj2 (Z.ltb_lt _ _)) by lia. simpl. now rewrite Hf.
  - apply nth_error_None in Hf. lia.
Qed.

Lemma resolve_nth_clamped (w : world) (files : list string) (n : Z) (st : state) :
  files <> [] -> 1 <= n ->
  exists f,
    nth_error files (Z.to_nat (Z.min (n - 1) (Z.of_nat (length files) - 1))) = Some f /\
    resolve_target w (use_nth_image n) files st
    = (img <-- decoded w f ; Ok (Some (im_size img)), add_opened f st).
Proof.
  intros Hne Hn.
  destruct (py_index_clamped files n Hne Hn) as (_ & f & Hf & Hidx).
  exists f. split; [exact Hf|].
  unfold resolve_target, bind, lift. rewrite Hidx, Image_open_eq.
  now destruct (decoded w f).
Qed.

(** ** The alpha band *)

Lemma drop_alpha_not_RGBA (w : world) (img img' : image) :
  drop_alpha w img = Ok img' -> im_mode img' <> "RGBA".
Proof.
  unfold drop_alpha, convert_RGB.
  destruct (String.eqb_spec (im_mode img) "RGBA") as [Heq|Hne].
  - destruct (convert_ok w img); [|discriminate]. intros [= <-]. discriminate.
  - now intros [= <-].
Qed.

Lemma drop_alpha_other (w : world) (img : image) :
  im_mode img <> "RGBA" -> drop_alpha w img = Ok img.
Proof.
  intros Hne. unfold drop_alpha.
  now destruct (String.eqb_spec (im_mode img) "RGBA").
Qed.

(** ** Recognized names *)

(** The test of line 82 looks at the end of the lower-cased name. *)
Example recognized_examples :
  recognized "a.JPG" = true /\ recognized "b.WebP" = true /\
  recognized "c.jpeg" = true /\ recognized "d.png" = true /\
  recognized "e.jpg.txt" = false /\ recognized "jpg" = false.
Proof. repeat split; vm_compute; reflexivity. Qed.

(** ** The folders of the demonstration *)

Lemma Demo_wf_A : wf_listing (listdir Demo.w (folder_path Demo.w "A")).
Proof.
  split; [apply (bool_decide_unpack _); now vm_compute|].
  vm_compute. repeat constructor.
Qed.

Lemma Demo_wf_B : wf_listing (listdir Demo.w (folder_path Demo.w "B")).
Proof.
  split; [apply (bool_decide_unpack _); now vm_compute|].
  vm_compute. repeat constructor.
Qed.

Lemma Demo_wf_M : wf_listing (listdir Demo.w (folder_path Demo.w "M")).
Proof.
  split; [apply (bool_decide_unpack _); now vm_compute|].
  vm_compute. repeat constructor.
Qed.

Lemma Demo_E_unrecognized :
  Forall (fun f => recognized f = false) (listdir Demo.w (folder_path Demo.w "E")).
Proof.
  change (listdir Demo.w (folder_path Demo.w "E")) with ["x.txt"].
  constructor; [vm_compute; reflexivity|constructor].
Qed.

(** Folder [A] of the demonstration, processed as it is. *)
Example Demo_process_A :
  process_folder Demo.w original_size "A" Demo.st1 = (Ok tt, Demo.st_after_A).
Proof. vm_compute. reflexivity. Qed.

(** ** The staging directory during the run *)

Lemma write_pdf_temp (w : world) (folder_name : string) (paths : list string)
    (st : state) :
  temp (snd (write_pdf w folder_name paths st)) = temp st.
Proof.
  destruct paths as [|p paths]; [reflexivity|].
  unfold write_pdf, bind, modify, img2pdf_convert. cbn [temp set_output].
  destruct (temp st) as [m|] eqn:Ht; [|exact Ht].
  destruct (read_files m (p :: paths)) as [pages|]; [|exact Ht].
  destruct (pdf_ok w pages); exact Ht.
Qed.

(** A folder leaves the staging directory in place. *)
Lemma process_folder_temp (w : world) (pol : policy) (folder_name : string)
    (st : state) (m : gmap string image) :
  temp st = Some m ->
  exists m', temp (snd (process_folder w pol folder_name st)) = Some m'.
Proof.
  intros Hm. unfold process_folder.
  destruct (isdir w (folder_path w folder_name)); cbn [negb]; [|now exists m].
  unfold bind at 1. unfold lift.
  destruct (image_files w folder_name) as [[|f files]|e]; try (now exists m).
  unfold bind at 1.
  destruct (resolve_target w pol (f :: files) st) as [[target|e] st1] eqn:Hres;
    apply resolve_target_frame in Hres as (Ht & _ & _);
    [|exists m; simpl; congruence].
  assert (Hm1 : temp st1 = Some m) by congruence.
  destruct (stage_all_spec w pol target (f :: files) [] st1 m Hm1) as (m' & Hall & _).
  unfold bind. rewrite Hall. exists m'. now rewrite write_pdf_temp.
Qed.

Lemma for_folders_temp (w : world) (pol : policy) (names : list string) :
  forall (st : state) (m : gmap string image),
  temp st = Some m ->
  exists m', temp (snd (for_folders w pol names st)) = Some m'.
Proof.
  induction names as [|n names IH]; intros st m Hm; [now exists m|].
  cbn [for_folders]. unfold bind.
  destruct (process_folder_temp w pol n st m Hm) as (m1 & Hm1).
  destruct (process_folder w pol n st) as [[[]|e] st1]; simpl in Hm1.
  - now apply (IH st1 m1).
  - now exists m1.
Qed.

(** The loop over the entries of [input/], cut at any entry. *)
Lemma for_folders_app (w : world) (pol : policy) (l1 l2 : list string) (st : state) :
  for_folders w pol (l1 ++ l2) st
  = match for_folders w pol l1 st with
    | (Ok _, st1) => for_folders w pol l2 st1
    | (Raise e, st1) => (Raise e, st1)
    end.
Proof.
  revert st. induction l1 as [|n l1 IH]; intros st; [reflexivity|].
  simpl. unfold bind.
  destruct (process_folder w pol n st) as [[[]|e] st1]; [apply IH|reflexivity].
Qed.

(** Every folder the run reaches is taken up with the staging directory in
    place. *)
Lemma folder_reached_with_temp (w : world) (lines : list string) (pol : policy)
    (l1 l2 : list string) (folder_name : string) (st st1 : state) :
  get_user_choice lines = Ok pol ->
  listdir w (input_dir w) = (l1 ++ folder_name :: l2)%list ->
  for_folders w pol l1 (snd (makedirs_temp st)) = (Ok tt, st1) ->
  (exists m, temp st1 = Some m) /\
  process_images w lines st
  = try_finally (_ <~ process_folder w pol folder_name ; for_folders w pol l2)
                rmtree_temp st1.
Proof.
  intros Hpol Hls Hl1. split.
  - assert (Hm : exists m, temp (snd (makedirs_temp st)) = Some m).
    { unfold makedirs_temp, modify. simpl.
      destruct (temp st) as [m|] eqn:Ht; [exists m|exists ∅]; auto. }
    destruct Hm as (m & Hm).
    destruct (for_folders_temp w pol l1 _ m Hm) as (m' & Hm').
    rewrite Hl1 in Hm'. now exists m'.
  - unfold process_images, bind, lift. rewrite Hpol, Hls.
    change (makedirs_temp st) with (Ok tt, snd (makedirs_temp st)).
    cbv iota beta. unfold try_finally.
    rewrite for_folders_app, Hl1. reflexivity.
Qed.

(** ** The log during the run *)

Lemma stage_image_output (w : world) (pol : policy) (target : option (Z * Z))
    (p : string) (st : state) :
  output (snd (stage_image w pol target p st)) = output st /\
  log (snd (stage_image w pol target p st)) = log st.
Proof.
  rewrite stage_image_eq.
  destruct (conversion w pol target p) as [img|e]; [|now split].
  unfold save. cbn [temp add_opened].
  destruct (temp st) as [m|]; [|now split].
  destruct (save_result w img (temp_path w p)); now split.
Qed.

(** ** The output directory during the run *)

Lemma stage_try_output (w : world) (pol : policy) (target : option (Z * Z))
    (p : string) (acc : list string) (st : state) :
  output (snd (try_except
                 (q <~ stage_image w pol target p ; ret (acc ++ [q])%list)
                 (fun e => _ <~ modify (add_log (Failed p e)) ; ret acc) st))
  = output st.
Proof.
  unfold try_except, bind.
  destruct (stage_image_output w pol target p st) as [Ho _].
  destruct (stage_image w pol target p st) as [[q|e] st1]; exact Ho.
Qed.

Lemma stage_all_output (w : world) (pol : policy) (target : option (Z * Z))
    (files : list string) :
  forall acc st, output (snd (stage_all w pol target files acc st)) = output st.
Proof.
  induction files as [|p files IH]; intros acc st; [reflexivity|].
  cbn [stage_all]. unfold bind at 1.
  pose proof (stage_try_output w pol target p acc st) as Hs.
  destruct (try_except _ _ st) as [[acc'|e] st1]; simpl in Hs.
  - now rewrite IH.
  - exact Hs.
Qed.

Lemma write_pdf_output_frame (w : world) (folder_name : string)
    (paths : list string) (st : state) (q : string) :
  q <> pdf_path w folder_name ->
  output (snd (write_pdf w folder_name paths st)) !! q = output st !! q.
Proof.
  intros Hq. destruct paths as [|p paths]; [reflexivity|].
  unfold write_pdf, bind, modify, img2pdf_convert. cbn [temp set_output].
  destruct (temp st) as [m|];
    [destruct (read_files m (p :: paths)) as [pages|];
     [destruct (pdf_ok w pages)|]|];
    cbn [snd output set_output add_log];
    rewrite ?lookup_insert_ne by congruence; reflexivity.
Qed.

Lemma process_folder_output_frame (w : world) (pol : policy) (folder_name : string)
    (st : state) (q : string) :
  q <> pdf_path w folder_name ->
  output (snd (process_folder w pol folder_name st)) !! q = output st !! q.
Proof.
  intros Hq. unfold process_folder.
  destruct (isdir w (folder_path w folder_name)); cbn [negb]; [|reflexivity].
  unfold bind at 1. unfold lift.
  destruct (image_files w folder_name) as [[|f files]|e]; try reflexivity.
  unfold bind at 1.
  destruct (resolve_target w pol (f :: files) st) as [[target|e] st1] eqn:Hres;
    apply resolve_target_frame in Hres as (_ & Ho & _);
    [|simpl; now rewrite Ho].
  unfold bind.
  pose proof (stage_all_output w pol target (f :: files) [] st1) as Hs.
  destruct (stage_all w pol target (f :: files) [] st1) as [[paths|e] st2];
    simpl in Hs.
  - rewrite write_pdf_output_frame by exact Hq. now rewrite Hs, Ho.
  - simpl. now rewrite Hs, Ho.
Qed.

Lemma for_folders_output_frame (w : world) (pol : policy) (names : list string)
    (q : string) :
  (forall n, In n names -> q <> pdf_path w n) ->
  forall st, output (snd (for_folders w pol names st)) !! q = output st !! q.
Proof.
  induction names as [|n names IH]; intros Hq st; [reflexivity|].
  cbn [for_folders]. unfold bind.
  pose proof (process_folder_output_frame w pol n st q (Hq n (or_introl eq_refl))) as Hn.
  destruct (process_folder w pol n st) as [[[]|e] st1]; simpl in Hn.
  - rewrite IH; [exact Hn|]. intros m Hm. apply Hq. now right.
  - exact Hn.
Qed.

Lemma string_app_inv_tail (a b c : string) : a +:+ c = b +:+ c -> a = b.
Proof.
  assert (Hlen : forall x y : string,
             String.length (x +:+ y) = (String.length x + String.length y)%nat).
  { intros x y. induction x as [|ch x IH]; [reflexivity|].
    change (String ch x +:+ y) with (String ch (x +:+ y)). simpl. now rewrite IH. }
  revert b. induction a as [|x a IH]; intros [|y b] H.
  - reflexivity.
  - apply (f_equal String.length) in H. rewrite !Hlen in H. simpl in H. lia.
  - apply (f_equal String.length) in H. rewrite !Hlen in H. simpl in H. lia.
  - change (String x (a +:+ c) = String y (b +:+ c)) in H.
    injection H as -> H. now rewrite (IH b H).
Qed.

(** Two folders have the same PDF only when they have the same name. *)
Lemma pdf_path_inj (w : world) (a b : string) :
  pdf_path w a = pdf_path w b -> a = b.
Proof.
  unfold pdf_path. intros H. apply join_inj in H.
  now apply string_app_inv_tail in H.
Qed.

(** Nothing that was printed is taken back: a folder, and the loop over the
    folders, only add lines to the log. *)
Lemma stage_all_log_grows (w : world) (pol : policy) (target : option (Z * Z))
    (files : list string) :
  forall acc st,
  exists evs, log (snd (stage_all w pol target files acc st)) = (log st ++ evs)%list.
Proof.
  induction files as [|p files IH]; intros acc st.
  - exists []. simpl. now rewrite app_nil_r.
  - cbn [stage_all]. unfold bind at 1. unfold try_except, bind.
    destruct (stage_image_output w pol target p st) as [_ Hl].
    destruct (stage_image w pol target p st) as [[q|e] st1]; simpl in Hl.
    + unfold ret. destruct (IH (acc ++ [q])%list st1) as (evs & Hevs).
      exists evs. now rewrite Hevs, Hl.
    + unfold modify, ret.
      destruct (IH acc (add_log (Failed p e) st1)) as (evs & Hevs).
      exists (Failed p e :: evs). rewrite Hevs. unfold add_log. cbn [log].
      now rewrite Hl, <- app_assoc.
Qed.

Lemma write_pdf_log_grows (w : world) (folder_name : string) (paths : list string)
    (st : state) :
  exists evs, log (snd (write_pdf w folder_name paths st)) = (log st ++ evs)%list.
Proof.
  destruct paths as [|p paths]; [exists []; simpl; now rewrite app_nil_r|].
  unfold write_pdf, bind, modify, img2pdf_convert. cbn [temp set_output].
  destruct (temp st) as [m|];
    [destruct (read_files m (p :: paths)) as [pages|];
     [destruct (pdf_ok w pages)|]|];
    cbn [snd log set_output add_log];
    first [ now exists [Generated (pdf_path w folder_name)]
          | exists []; now rewrite app_nil_r ].
Qed.

Lemma process_folder_log_grows (w : world) (pol : policy) (folder_name : string)
    (st : state) :
  exists evs, log (snd (process_folder w pol folder_name st)) = (log st ++ evs)%list.
Proof.
  assert (Hnil : exists evs : list event, log st = (log st ++ evs)%list)
    by (exists []; now rewrite app_nil_r).
  unfold process_folder.
  destruct (isdir w (folder_path w folder_name)); cbn [negb]; [|exact Hnil].
  unfold bind at 1. unfold lift.
  destruct (image_files w folder_name) as [[|f files]|e]; [|..|exact Hnil].
  { now exists [Skipped folder_name]. }
  unfold bind at 1.
  destruct (resolve_target w pol (f :: files) st) as [[target|e] st1] eqn:Hres;
    apply resolve_target_frame in Hres as (_ & _ & Hl);
    [|simpl; rewrite Hl; exact Hnil].
  unfold bind.
  destruct (stage_all_log_grows w pol target (f :: files) [] st1) as (evs1 & H1).
  destruct (stage_all w pol target (f :: files) [] st1) as [[paths|e] st2];
    simpl in H1.
  - destruct (write_pdf_log_grows w folder_name paths st2) as (evs2 & H2).
    exists (evs1 ++ evs2)%list. now rewrite H2, H1, Hl, app_assoc.
  - exists evs1. simpl. now rewrite H1, Hl.
Qed.

Lemma for_folders_log_grows (w : world) (pol : policy) (names : list string) :
  forall st,
  exists evs, log (snd (for_folders w pol names st)) = (log st ++ evs)%list.
Proof.
  induction names as [|n names IH]; intros st.
  - exists []. simpl. now rewrite app_nil_r.
  - cbn [for_folders]. unfold bind.
    destruct (process_folder_log_grows w pol n st) as (evs1 & H1).
    destruct (process_folder w pol n st) as [[[]|e] st1]; simpl in H1.
    + destruct (IH st1) as (evs2 & H2).
      exists (evs1 ++ evs2)%list. now rewrite H2, H1, app_assoc.
    + now exists evs1.
Qed.

(** * Part III: the claims *)

(** ** C1: page order *)

(** C1, as the code has it.  When a folder yields a PDF, its image files
    were put in natural-sort order (a permutation of the recognized files in
    which every file may stand before all that follow it, files with the
    same key keeping the order of the listing), and the pages of the PDF are
    the staged conversions of the files that were staged without an error, in
    that order.  When no file of the folder fails, page [i] is the staged
    conversion of file [i]. *)
Theorem pdf_pages_follow_natural_order (w : world) (pol : policy)
    (folder_name : string) (st st' : state) (r : result unit)
    (m : gmap string image) :
  temp st = Some m ->
  wf_listing (listdir w (folder_path w folder_name)) ->
  process_folder w pol folder_name st = (r, st') ->
  yields_pdf w folder_name st st' ->
  exists files target st1,
    image_files w folder_name = Ok files /\
    Permutation files (recognized_paths w folder_name) /\
    StronglySorted natural_le files /\
    (forall k, List.filter (has_key k) files
               = List.filter (has_key k) (recognized_paths w folder_name)) /\
    resolve_target w pol files st = (Ok target, st1) /\
    output st' !! pdf_path w folder_name
    = Some (Pdf (staged_images w pol target files)) /\
    (Forall (fun p => is_ok (stage_outcome w pol target p) = true) files ->
     Forall2 (fun p page => stage_outcome w pol target p = Ok page)
             files (staged_images w pol target files)).
Proof.
  intros Hm Hwf Hrun Hy.
  destruct (process_folder_yields w pol folder_name st st' r m Hm Hwf Hrun Hy)
    as (files & target & st1 & Hfiles & Hres & _ & Hout).
  destruct (image_files_spec w folder_name files Hfiles) as [Hperm Hsorted].
  exists files, target, st1.
  split; [exact Hfiles|]. split; [exact Hperm|]. split; [exact Hsorted|].
  split; [intros k; now apply image_files_stable|].
  split; [exact Hres|]. split; [exact Hout|].
  apply staged_images_all.
Qed.

Lemma pdf_pages_follow_natural_order_witness :
  exists files target st1,
    image_files Demo.w "M" = Ok files /\
    Permutation files (recognized_paths Demo.w "M") /\
    StronglySorted natural_le files /\
    (forall k, List.filter (has_key k) files
               = List.filter (has_key k) (recognized_paths Demo.w "M")) /\
    resolve_target Demo.w max_resolution files Demo.st1 = (Ok target, st1) /\
    output (snd (process_folder Demo.w max_resolution "M" Demo.st1))
      !! pdf_path Demo.w "M"
    = Some (Pdf (staged_images Demo.w max_resolution target files)) /\
    (Forall (fun p => is_ok (stage_outcome Demo.w max_resolution target p) = true) files ->
     Forall2 (fun p page => stage_outcome Demo.w max_resolution target p = Ok page)
             files (staged_images Demo.w max_resolution target files)).
Proof.
  apply (pdf_pages_follow_natural_order Demo.w max_resolution "M" Demo.st1
           (snd (process_folder Demo.w max_resolution "M" Demo.st1))
           (fst (process_folder Demo.w max_resolution "M" Demo.st1)) ∅).
  - reflexivity.
  - exact Demo_wf_M.
  - apply surjective_pairing.
  - exists []. vm_compute. reflexivity.
Defined.

(** C1, as it is written, fails on folder [A] of the demonstration: its
    first file in natural-sort order cannot be decoded, so page 0 is the
    staged conversion of the second file. *)
Lemma page_index_shifts_after_failure :
  exists st' files pages,
    process_folder Demo.w original_size "A" Demo.st1 = (Ok tt, st') /\
    yields_pdf Demo.w "A" Demo.st1 st' /\
    image_files Demo.w "A" = Ok files /\
    output st' !! pdf_path Demo.w "A" = Some (Pdf pages) /\
    ~ Forall2 (fun p page => stage_outcome Demo.w original_size None p = Ok page)
              files pages.
Proof.
  exists (snd (process_folder Demo.w original_size "A" Demo.st1)),
    ["/w/input/A/p1.PNG"; "/w/input/A/p2.png"; "/w/input/A/p10.jpg"],
    [mkImage "/w/input/A/p2.png" (300, 50) "RGB";
     mkImage "/w/input/A/p10.jpg" (100, 200) "RGB"].
  split; [vm_compute; reflexivity|].
  split; [exists [Failed "/w/input/A/p1.PNG" ImageError]; vm_compute; reflexivity|].
  split; [vm_compute; reflexivity|].
  split; [vm_compute; reflexivity|].
  intros H. inversion H as [|? ? ? ? Hhead _]. vm_compute in Hhead. discriminate.
Qed.

(** ** C2: the natural-sort key *)

(** C2, the failing input.  ["1²2.jpg"] and ["1²3.jpg"] differ in their
    last run of digits only, the first having the smaller number.
    [re.split] takes the superscript two for a text, [isdigit] accepts it and
    [int] refuses it: the key raises [ValueError], and so do [sorted] and the
    processing of folder [S], which holds the two images. *)
Theorem superscript_digit_breaks_natural_key :
  smaller_number (PyStr.re_split Demo.name_a) (PyStr.re_split Demo.name_b) /\
  natural_key Demo.name_a = Raise ValueError /\
  natural_key Demo.name_b = Raise ValueError /\
  sorted_natural [Demo.name_b; Demo.name_a] = Raise ValueError /\
  image_files Demo.w "S" = Raise ValueError /\
  fst (process_folder Demo.w original_size "S" Demo.st1) = Raise ValueError.
Proof.
  split; [|repeat split; vm_compute; reflexivity].
  change (PyStr.re_split Demo.name_a)
    with ["" ; "1" ; String Demo.sup2 "" ; "2" ; ".jpg"].
  change (PyStr.re_split Demo.name_b)
    with ["" ; "1" ; String Demo.sup2 "" ; "3" ; ".jpg"].
  apply smaller_later; [reflexivity|].
  apply smaller_here; [vm_compute; reflexivity|constructor].
Qed.

(** ** C3: the N-th image *)

(** C3, the failing input.  The prompt accepts [0]; the index is then [-1],
    which Python reads from the end of the list: the target size is that of
    the last image of folder [M], not that of the image at index 0. *)
Theorem nth_image_zero_selects_last :
  get_user_choice ["1"; "0"] = Ok (use_nth_image 0) /\
  image_files Demo.w "M" = Ok ["/w/input/M/1.png"; "/w/input/M/2.png"] /\
  fst (resolve_target Demo.w (use_nth_image 0)
         ["/w/input/M/1.png"; "/w/input/M/2.png"] Demo.st1)
  = Ok (Some (300, 50)) /\
  decoded Demo.w "/w/input/M/2.png" = Ok (mkImage "/w/input/M/2.png" (300, 50) "RGB") /\
  decoded Demo.w "/w/input/M/1.png" = Ok (mkImage "/w/input/M/1.png" (100, 200) "RGB").
Proof. repeat split; vm_compute; reflexivity. Qed.

(** ** C4: the greatest resolution *)

(** C4, as the code has it.  When every image of a non-empty folder can be
    decoded, the target size under [max_resolution] is the greatest width
    and the greatest height among the native sizes, taken separately; every
    image was opened once. *)
Theorem max_resolution_is_componentwise_max (w : world) (files : list string)
    (imgs : list image) (st : state) :
  files <> [] ->
  rmap (decoded w) files = Ok imgs ->
  exists mw mh,
    resolve_target w max_resolution files st
    = (Ok (Some (mw, mh)),
       mkState (temp st) (output st) (log st) (opened st ++ files)%list) /\
    is_max (map (fun img => fst (im_size img)) imgs) mw /\
    is_max (map (fun img => snd (im_size img)) imgs) mh.
Proof.
  intros Hne Himgs.
  assert (Hlen : imgs <> []).
  { apply rmap_length in Himgs. destruct imgs, files; simpl in *; congruence. }
  destruct (py_max_is_max (map fst (map im_size imgs))) as (mw & Hmw & Hw).
  { destruct imgs; [congruence|discriminate]. }
  destruct (py_max_is_max (map snd (map im_size imgs))) as (mh & Hmh & Hh).
  { destruct imgs; [congruence|discriminate]. }
  exists mw, mh. split; [|split].
  - unfold resolve_target, bind at 1.
    rewrite (open_sizes_all w files imgs Himgs).
    unfold bind, lift, ret. now rewrite Hmw, Hmh.
  - now rewrite map_map in Hw.
  - now rewrite map_map in Hh.
Qed.

Lemma max_resolution_is_componentwise_max_witness :
  fst (resolve_target Demo.w max_resolution
         ["/w/input/M/1.png"; "/w/input/M/2.png"] Demo.st1)
  = Ok (Some (300, 200)).
Proof.
  destruct (max_resolution_is_componentwise_max Demo.w
              ["/w/input/M/1.png"; "/w/input/M/2.png"]
              [mkImage "/w/input/M/1.png" (100, 200) "RGB";
               mkImage "/w/input/M/2.png" (300, 50) "RGB"]
              Demo.st1 ltac:(discriminate) eq_refl)
    as (mw & mh & Heq & [Hinw Hallw] & [Hinh Hallh]).
  rewrite Heq. simpl in *.
  inversion Hallw as [|? ? Hw1 Hallw']; inversion Hallw' as [|? ? Hw2 _]; subst.
  inversion Hallh as [|? ? Hh1 Hallh']; inversion Hallh' as [|? ? Hh2 _]; subst.
  assert (mw = 300) as -> by lia.
  assert (mh = 200) as -> by lia.
  reflexivity.
Defined.

(** C4, as it is written, fails on folder [A] of the demonstration.  Its
    list of images is not empty, but [p1.PNG] cannot be decoded: line 95
    raises the exception of the imaging library at the first image, and
    there is no target size, neither the greatest width and height of the
    two images that can be decoded nor any other. *)
Lemma undecodable_image_has_no_max_resolution :
  image_files Demo.w "A"
  = Ok ["/w/input/A/p1.PNG"; "/w/input/A/p2.png"; "/w/input/A/p10.jpg"] /\
  decoded Demo.w "/w/input/A/p1.PNG" = Raise ImageError /\
  is_ok (decoded Demo.w "/w/input/A/p2.png") = true /\
  is_ok (decoded Demo.w "/w/input/A/p10.jpg") = true /\
  resolve_target Demo.w max_resolution
    ["/w/input/A/p1.PNG"; "/w/input/A/p2.png"; "/w/input/A/p10.jpg"] Demo.st1
  = (Raise ImageError, add_opened "/w/input/A/p1.PNG" Demo.st1) /\
  ~ (exists t,
       fst (resolve_target Demo.w max_resolution
              ["/w/input/A/p1.PNG"; "/w/input/A/p2.png"; "/w/input/A/p10.jpg"]
              Demo.st1)
       = Ok (Some t)).
Proof.
  repeat split; try (vm_compute; reflexivity).
  intros (t & Ht). vm_compute in Ht. discriminate.
Qed.

(** ** C5: the fixed resolution *)

(** C5.  Under [fixed_resolution] the target size is the pair of the
    policy, whatever the folder holds; the state is returned as it was, so
    no image was opened. *)
Theorem fixed_resolution_needs_no_decode (w : world) (width height : Z)
    (files : list string) (st : state) :
  resolve_target w (fixed_resolution width height) files st
  = (Ok (Some (width, height)), st) /\
  opened (snd (resolve_target w (fixed_resolution width height) files st))
  = opened st.
Proof. split; reflexivity. Qed.

(** ** C6: the staging directory *)

(** C6, the failing input.  With the console at its end, [input()] raises
    [EOFError] inside [get_user_choice], which is called after the staging
    directory was created and before the [try]: [process_images] ends with
    that exception and the directory is still there.  A superscript digit
    typed for the image number does the same with a [ValueError]. *)
Theorem prompt_failure_leaves_temp_dir (w : world) :
  process_images w [] Demo.st0 = (Raise EOFError, Demo.st1) /\
  temp Demo.st0 = None /\ temp Demo.st1 = Some ∅ /\
  process_images w ["1"; String Demo.sup2 ""] Demo.st0
  = (Raise ValueError, Demo.st1).
Proof. repeat split. Qed.

(** ** C7: failures of single images *)

(** C7, as the code has it.  Once the images of a folder are listed and its
    target size is resolved, no error of a single image ends the folder:
    processing the folder either returns or raises the error of the PDF
    assembler.  Every image that fails is printed with its path and its
    exception, and when an image succeeded and the assembler accepts the
    staged images, the PDF of the folder holds exactly the staged
    conversions of the images that succeeded. *)
Theorem image_failures_are_isolated (w : world) (pol : policy)
    (folder_name : string) (st st1 : state) (m : gmap string image)
    (files : list string) (target : option (Z * Z)) :
  isdir w (folder_path w folder_name) = true ->
  wf_listing (listdir w (folder_path w folder_name)) ->
  image_files w folder_name = Ok files -> files <> [] ->
  resolve_target w pol files st = (Ok target, st1) ->
  temp st = Some m ->
  exists r st',
    process_folder w pol folder_name st = (r, st') /\
    (r = Ok tt \/ r = Raise PdfError) /\
    (forall p e, p ∈ files -> stage_outcome w pol target p = Raise e ->
                 Failed p e ∈ log st') /\
    (staged_images w pol target files <> [] ->
     pdf_ok w (staged_images w pol target files) = true ->
     r = Ok tt /\
     output st' !! pdf_path w folder_name
     = Some (Pdf (staged_images w pol target files))).
Proof.
  intros Hdir Hwf Hfiles Hne Hres Hm.
  pose proof (image_files_NoDup w folder_name files Hwf Hfiles) as Hnd.
  destruct (process_folder_staged w pol folder_name st st1 m files target
              Hdir Hfiles Hne Hres Hm Hnd) as (m' & _ & Heq).
  cbn zeta in Heq. rewrite Heq. clear Heq.
  assert (Hlog : forall p e l, p ∈ files -> stage_outcome w pol target p = Raise e ->
                 Failed p e ∈ ((log st ++ failures w pol target files) ++ l)%list).
  { intros p e l Hp He. apply elem_of_app. left. apply elem_of_app. right.
    now apply failures_complete. }
  destruct (staged_images w pol target files) as [|pg pages] eqn:Hst.
  - eexists _, _. split; [reflexivity|]. split; [now left|]. split.
    + intros p e Hp He. cbn [log]. rewrite <- (app_nil_r (_ ++ _)%list).
      now apply Hlog.
    + congruence.
  - destruct (pdf_ok w (pg :: pages)) eqn:Hok.
    + eexists _, _. split; [reflexivity|]. split; [now left|]. split.
      * intros p e Hp He. unfold add_log, set_output. cbn [log]. now apply Hlog.
      * intros _ _. split; [reflexivity|].
        unfold add_log, set_output. cbn [output]. apply lookup_insert_eq.
    + eexists _, _. split; [reflexivity|]. split; [now right|]. split.
      * intros p e Hp He. unfold set_output. cbn [log].
        rewrite <- (app_nil_r (_ ++ _)%list). now apply Hlog.
      * congruence.
Qed.

Lemma image_failures_are_isolated_witness :
  exists r st',
    process_folder Demo.w original_size "A" Demo.st1 = (r, st') /\
    (r = Ok tt \/ r = Raise PdfError) /\
    (forall p e,
       p ∈ ["/w/input/A/p1.PNG"; "/w/input/A/p2.png"; "/w/input/A/p10.jpg"] ->
       stage_outcome Demo.w original_size None p = Raise e ->
       Failed p e ∈ log st') /\
    (staged_images Demo.w original_size None
       ["/w/input/A/p1.PNG"; "/w/input/A/p2.png"; "/w/input/A/p10.jpg"] <> [] ->
     pdf_ok Demo.w (staged_images Demo.w original_size None
       ["/w/input/A/p1.PNG"; "/w/input/A/p2.png"; "/w/input/A/p10.jpg"]) = true ->
     r = Ok tt /\
     output st' !! pdf_path Demo.w "A"
     = Some (Pdf (staged_images Demo.w original_size None
          ["/w/input/A/p1.PNG"; "/w/input/A/p2.png"; "/w/input/A/p10.jpg"]))).
Proof.
  apply (image_failures_are_isolated Demo.w original_size "A" Demo.st1 Demo.st1 ∅).
  - reflexivity.
  - exact Demo_wf_A.
  - vm_compute. reflexivity.
  - discriminate.
  - reflexivity.
  - reflexivity.
Defined.

(** C7, as it is written, fails under [max_resolution] on the
    demonstration: [p1.PNG] of folder [A] cannot be decoded, the error is
    raised while the target size is resolved, outside the [try] of the loop.
    Nothing is printed, the run ends with the exception and folder [A] gets
    no PDF, although its two other images can be staged. *)
Lemma resolver_failure_aborts_run :
  get_user_choice ["2"] = Ok max_resolution /\
  decoded Demo.w "/w/input/A/p1.PNG" = Raise ImageError /\
  is_ok (stage_outcome Demo.w max_resolution (Some (300, 200)) "/w/input/A/p2.png") = true /\
  is_ok (stage_outcome Demo.w max_resolution (Some (300, 200)) "/w/input/A/p10.jpg") = true /\
  fst (process_images Demo.w ["2"] Demo.st0) = Raise ImageError /\
  log (snd (process_images Demo.w ["2"] Demo.st0)) = [] /\
  output (snd (process_images Demo.w ["2"] Demo.st0)) !! pdf_path Demo.w "A" = None.
Proof. repeat split; vm_compute; reflexivity. Qed.

(** ** C8: folders without images *)

(** C8.  A folder none of whose entries has a recognized extension is
    reported as skipped and is no error: processing it returns, the line of
    the skipped folder is the one line it adds to the log, and it writes
    nothing to the output directory, opens no image and leaves the staging
    directory as it was.  The loop then goes on with the next entry of
    [input/]; when the loop ends, however it ends, the line of the skipped
    folder is still in the log, and the PDF of the folder is what it was
    before the run, absent if it was absent (the other entries of [input/]
    have other names). *)
Theorem empty_folder_is_skipped (w : world) (pol : policy) (folder_name : string)
    (st : state) :
  isdir w (folder_path w folder_name) = true ->
  Forall (fun f => recognized f = false) (listdir w (folder_path w folder_name)) ->
  exists st',
    process_folder w pol folder_name st = (Ok tt, st') /\
    log st' = (log st ++ [Skipped folder_name])%list /\
    output st' = output st /\
    temp st' = temp st /\
    opened st' = opened st /\
    forall names,
      for_folders w pol (folder_name :: names) st = for_folders w pol names st' /\
      (exists evs,
         log (snd (for_folders w pol (folder_name :: names) st))
         = (log st ++ Skipped folder_name :: evs)%list) /\
      (~ In folder_name names ->
       output (snd (for_folders w pol (folder_name :: names) st))
         !! pdf_path w folder_name
       = output st !! pdf_path w folder_name).
Proof.
  intros Hdir Hnone.
  assert (Hfiles : image_files w folder_name = Ok []).
  { unfold image_files.
    replace (List.filter recognized (listdir w (folder_path w folder_name)))
      with (@nil string); [reflexivity|].
    induction Hnone as [|f names Hf _ IH]; simpl; [reflexivity|].
    now rewrite Hf. }
  set (st' := mkState (temp st) (output st) (log st ++ [Skipped folder_name])%list
                      (opened st)).
  assert (Hrun : process_folder w pol folder_name st = (Ok tt, st')).
  { unfold process_folder, bind, lift, modify. now rewrite Hdir, Hfiles. }
  exists st'. repeat (split; [first [exact Hrun | reflexivity]|]).
  intros names.
  assert (Hnext : for_folders w pol (folder_name :: names) st
                  = for_folders w pol names st').
  { cbn [for_folders]. unfold bind at 1. now rewrite Hrun. }
  split; [exact Hnext|]. split.
  - destruct (for_folders_log_grows w pol names st') as (evs & Hevs).
    exists evs. rewrite Hnext, Hevs. unfold st'. cbn [log].
    now rewrite <- app_assoc.
  - intros Hfresh. rewrite Hnext.
    rewrite (for_folders_output_frame w pol names (pdf_path w folder_name));
      [reflexivity|].
    intros n Hn Heq. apply pdf_path_inj in Heq. subst n. contradiction.
Qed.

Lemma empty_folder_is_skipped_witness :
  exists st',
    process_folder Demo.w original_size "E" Demo.st1 = (Ok tt, st') /\
    log st' = (log Demo.st1 ++ [Skipped "E"])%list /\
    output st' = output Demo.st1 /\
    temp st' = temp Demo.st1 /\
    opened st' = opened Demo.st1 /\
    forall names,
      for_folders Demo.w original_size ("E" :: names) Demo.st1
      = for_folders Demo.w original_size names st' /\
      (exists evs,
         log (snd (for_folders Demo.w original_size ("E" :: names) Demo.st1))
         = (log Demo.st1 ++ Skipped "E" :: evs)%list) /\
      (~ In "E" names ->
       output (snd (for_folders Demo.w original_size ("E" :: names) Demo.st1))
         !! pdf_path Demo.w "E"
       = output Demo.st1 !! pdf_path Demo.w "E").
Proof.
  apply (empty_folder_is_skipped Demo.w original_size "E" Demo.st1).
  - reflexivity.
  - exact Demo_E_unrecognized.
Defined.

(** ** C9: the alpha band *)

(** C9, the failing input.  [g.png] of folder [G] is decoded in mode [LA],
    grey with an alpha band.  Lines 110 and 128 compare the mode with
    ['RGBA'] only, so the image is staged as it is, with its alpha band:
    under [original_size] and, resized, under [fixed_resolution]. *)
Theorem grey_alpha_image_keeps_alpha :
  decoded Demo.w "/w/input/G/g.png" = Ok (mkImage "/w/input/G/g.png" (10, 20) "LA") /\
  has_alpha "LA" = true /\
  stage_outcome Demo.w original_size None "/w/input/G/g.png"
  = Ok (mkImage "/w/input/G/g.png" (10, 20) "LA") /\
  stage_outcome Demo.w (fixed_resolution 80 60) (Some (80, 60)) "/w/input/G/g.png"
  = Ok (mkImage "/w/input/G/g.png" (80, 60) "LA") /\
  (temp (snd (stage_all Demo.w original_size None ["/w/input/G/g.png"] [] Demo.st1))
     ≫= fun files => files !! temp_path Demo.w "/w/input/G/g.png")
  = Some (mkImage "/w/input/G/g.png" (10, 20) "LA").
Proof. repeat split; vm_compute; reflexivity. Qed.

(** ** C10: the staged images of a folder *)

(** C10.  Whatever the staging directory holds when a folder is taken up,
    the loop over its images starts from the empty list and returns the
    staged paths of the images of this folder that did not fail.  When the
    assembler is called the staging directory holds, at each of these paths,
    the staged conversion of the image of this folder, whatever file an
    earlier folder left under that name; and when the folder yields a PDF,
    its pages are exactly these staged conversions, each of them the
    conversion of a recognized file of this very folder. *)
Theorem pdf_pages_come_from_own_folder (w : world) (pol : policy)
    (folder_name : string) (st st' : state) (r : result unit)
    (m : gmap string image) :
  temp st = Some m ->
  wf_listing (listdir w (folder_path w folder_name)) ->
  process_folder w pol folder_name st = (r, st') ->
  yields_pdf w folder_name st st' ->
  exists files target st1 st2 m2,
    image_files w folder_name = Ok files /\
    resolve_target w pol files st = (Ok target, st1) /\
    stage_all w pol target files [] st1
    = (Ok (staged_paths w pol target files), st2) /\
    temp st2 = Some m2 /\
    Forall2 (fun path page => m2 !! path = Some page)
            (staged_paths w pol target files) (staged_images w pol target files) /\
    output st' !! pdf_path w folder_name
    = Some (Pdf (staged_images w pol target files)) /\
    Forall (fun page => im_src page ∈ recognized_paths w folder_name /\
                        stage_outcome w pol target (im_src page) = Ok page)
           (staged_images w pol target files).
Proof.
  intros Hm Hwf Hrun Hy.
  destruct (process_folder_yields w pol folder_name st st' r m Hm Hwf Hrun Hy)
    as (files & target & st1 & Hfiles & Hres & _ & Hout).
  destruct (resolve_target_frame w pol files st _ st1 Hres) as (Ht1 & _ & _).
  assert (Hm1 : temp st1 = Some m) by congruence.
  destruct (stage_all_spec w pol target files [] st1 m Hm1) as (m2 & Hall & _ & Hhit).
  pose proof (image_files_NoDup w folder_name files Hwf Hfiles) as Hnd.
  destruct (image_files_spec w folder_name files Hfiles) as [Hperm _].
  exists files, target, st1. eexists. exists m2.
  split; [exact Hfiles|]. split; [exact Hres|]. split; [exact Hall|].
  split; [reflexivity|]. split; [now apply staged_lookup, Hhit|].
  split; [exact Hout|].
  eapply Forall_impl; [apply staged_images_own|].
  intros page (p & Hp & Ho). cbv beta.
  rewrite (stage_outcome_src w pol target p page Ho). split; [|exact Ho].
  now rewrite <- Hperm.
Qed.

Lemma pdf_pages_come_from_own_folder_witness :
  Demo.staged_A !! temp_path Demo.w "/w/input/B/p2.png"
  = Some (mkImage "/w/input/A/p2.png" (300, 50) "RGB") /\
  output (snd (process_folder Demo.w original_size "B" Demo.st_after_A))
    !! pdf_path Demo.w "B"
  = Some (Pdf [mkImage "/w/input/B/p2.png" (10, 20) "RGB"]).
Proof.
  split; [vm_compute; reflexivity|].
  destruct (pdf_pages_come_from_own_folder Demo.w original_size "B" Demo.st_after_A
              (snd (process_folder Demo.w original_size "B" Demo.st_after_A))
              (fst (process_folder Demo.w original_size "B" Demo.st_after_A))
              Demo.staged_A eq_refl Demo_wf_B (surjective_pairing _))
    as (files & target & st1 & st2 & m2 & Hfiles & Hres & _ & _ & _ & Hout & _).
  - exists []. vm_compute. reflexivity.
  - vm_compute in Hfiles. injection Hfiles as <-.
    vm_compute in Hres. injection Hres as <- _.
    exact Hout.
Defined.

(** * Part IV: further properties of the code *)

(** ** Lemmas on [re.split] and on exceptions of the key *)

Lemma re_split_chars (P : ascii -> bool) (s : string) :
  PyStr.forallb_str P s = true ->
  Forall (fun chunk => PyStr.forallb_str P chunk = true) (PyStr.re_split s).
Proof.
  induction s as [|c s IH]; simpl; intros H.
  - repeat constructor.
  - apply andb_prop in H as [Hc Hs]. specialize (IH Hs).
    destruct (PyStr.re_split s) as [|t rest].
    + repeat constructor. simpl. now rewrite Hc.
    + inversion IH as [|? ? Ht Hrest]; subst.
      destruct (PyStr.is_09 c).
      * destruct t as [|c' t'].
        -- destruct rest as [|d rest'].
           ++ repeat constructor. simpl. now rewrite Hc.
           ++ inversion Hrest as [|? ? Hd Hrest']; subst.
              constructor; [reflexivity|]. constructor; [|assumption].
              simpl. now rewrite Hc, Hd.
        -- constructor; [reflexivity|]. constructor; [|assumption].
           simpl. now rewrite Hc.
      * constructor; [|assumption]. simpl. now rewrite Hc, Ht.
Qed.

Lemma key_of_plain_text (t : string) :
  text_run t -> plain t -> key_of_chunk t = Ok (CStr t).
Proof.
  unfold text_run, plain, key_of_chunk, PyStr.isdigit.
  destruct t as [|c t]; [reflexivity|]. simpl. intros Ht Hp.
  apply andb_prop in Ht as [Hc _]. apply andb_prop in Hp as [Hpc _].
  apply negb_true_iff in Hc. unfold plain_char in Hpc. rewrite Hc in Hpc.
  rewrite orb_false_r in Hpc. apply negb_true_iff in Hpc. now rewrite Hpc.
Qed.

Lemma rmap_key_plain (l : list string) :
  split_shape l -> Forall plain l -> exists k, rmap key_of_chunk l = Ok k.
Proof.
  induction 1 as [t Ht | t d l Ht Hd Hl IH]; intros Hp.
  - inversion Hp; subst. simpl. rewrite (key_of_plain_text t) by assumption.
    simpl. now eexists.
  - inversion Hp as [|? ? Hpt Hp']; subst. inversion Hp' as [|? ? _ Hp'']; subst.
    destruct (IH Hp'') as (k & Hk). simpl.
    rewrite (key_of_plain_text t) by assumption.
    rewrite (key_of_digit_run d Hd). simpl. rewrite Hk. simpl. now eexists.
Qed.

Lemma natural_key_plain (x : string) :
  plain x -> exists k, natural_key x = Ok k.
Proof.
  intros Hx. apply rmap_key_plain; [apply re_split_shape|].
  now apply re_split_chars.
Qed.

Lemma rmap_raise_inv {A B : Type} (f : A -> result B) (l : list A) (e : exn) :
  rmap f l = Raise e -> exists x, In x l /\ f x = Raise e.
Proof.
  induction l as [|a l IH]; simpl; [discriminate|].
  destruct (f a) as [b|e'] eqn:Ha; simpl.
  - destruct (rmap f l) as [bs|e'']; simpl; [discriminate|].
    intros [= <-]. destruct (IH eq_refl) as (x & Hx & Hfx). exists x. auto.
  - intros [= <-]. exists a. auto.
Qed.

Lemma rmap_raise_intro {A B : Type} (f : A -> result B) (l : list A) (x : A) :
  In x l -> is_ok (f x) = false -> exists e, rmap f l = Raise e.
Proof.
  induction l as [|a l IH]; simpl; [tauto|].
  intros [->|Hx] Hfx.
  - destruct (f x); [discriminate|]. simpl. now eexists.
  - destruct (f a); simpl; [|now eexists].
    destruct (IH Hx Hfx) as (e & ->). simpl. now eexists.
Qed.

Lemma natural_key_raises (x : string) (e : exn) :
  natural_key x = Raise e -> e = ValueError.
Proof.
  intros H. apply rmap_raise_inv in H as (c & _ & Hc).
  unfold key_of_chunk, PyStr.int in Hc.
  destruct (PyStr.isdigit c); [|discriminate].
  match type of Hc with
  | context [match ?o with Some _ => _ | None => _ end] => destruct o
  end; simpl in Hc; congruence.
Qed.

Lemma same_numbers_keys (la lb : list string) :
  same_numbers la lb -> split_shape la -> split_shape lb ->
  rmap key_of_chunk la = rmap key_of_chunk lb.
Proof.
  induction 1 as [t | t da db la lb Hv Hs IH]; intros Ha Hb; [reflexivity|].
  inversion Ha as [|? ? ? _ Hda Hla]; subst.
  inversion Hb as [|? ? ? _ Hdb Hlb]; subst.
  simpl. rewrite (key_of_digit_run da Hda), (key_of_digit_run db Hdb), Hv.
  now rewrite (IH Hla Hlb).
Qed.

(** ** The natural-sort key and [sorted] (lines 79-83) *)

(** X1.  [re.split] with its capturing group loses nothing: the chunks of
    a string, put end to end, are the string. *)
Theorem re_split_round_trip (s : string) :
  join_chunks (PyStr.re_split s) = s.
Proof.
  induction s as [|c s IH]; [reflexivity|]. simpl.
  destruct (PyStr.re_split s) as [|t rest].
  - simpl in *. now rewrite <- IH.
  - destruct (PyStr.is_09 c).
    + destruct t as [|c' t']; [destruct rest as [|d rest']|];
        simpl in *; now rewrite <- IH.
    + simpl in *. now rewrite <- IH.
Qed.

(** X2.  On names in which [str.isdigit] and [[0-9]] agree on every
    character, in particular on ASCII names, every key can be computed:
    [sorted] returns, and what it returns is a permutation of the names in
    which each name may stand before all that follow it. *)
Theorem plain_names_are_sorted (l : list string) :
  Forall plain l ->
  exists r, sorted_natural l = Ok r /\ Permutation r l /\
            StronglySorted natural_le r.
Proof.
  intros Hl.
  destruct (sorted_natural_total l) as (r & Hr).
  { eapply Forall_impl; [exact Hl|]. intros x Hx. cbv beta.
    destruct (natural_key_plain x Hx) as (k & ->). reflexivity. }
  exists r. split; [exact Hr|]. now apply sorted_natural_spec.
Qed.

Lemma plain_names_are_sorted_witness :
  exists r, sorted_natural ["b10.png"; "b9.png"; "a.jpg"] = Ok r /\
            Permutation r ["b10.png"; "b9.png"; "a.jpg"] /\
            StronglySorted natural_le r.
Proof.
  apply (plain_names_are_sorted ["b10.png"; "b9.png"; "a.jpg"]).
  repeat constructor.
Defined.

(** X3.  On names in which [str.isdigit] and [[0-9]] agree on every
    character, a key is alternately a [str] and an [int], starting with a
    [str]; two such keys can always be compared: [<] raises no [TypeError]
    between them, and exactly one of "smaller", "equal" and "greater"
    holds. *)
Theorem plain_keys_are_comparable (a b : string) (ka kb : list chunk) :
  plain a -> plain b ->
  natural_key a = Ok ka -> natural_key b = Ok kb ->
  alt_key true ka = true /\ alt_key true kb = true /\
  ((key_lt ka kb = Ok true /\ key_lt kb ka = Ok false /\ ka <> kb) \/
   (key_lt ka kb = Ok false /\ key_lt kb ka = Ok false /\ ka = kb) \/
   (key_lt ka kb = Ok false /\ key_lt kb ka = Ok true /\ ka <> kb)).
Proof.
  intros _ _ Ha Hb.
  pose proof (natural_key_alt a ka Ha) as Hka.
  pose proof (natural_key_alt b kb Hb) as Hkb.
  split; [exact Hka|]. split; [exact Hkb|].
  rewrite (key_lt_compare ka kb true Hka Hkb), (key_lt_compare kb ka true Hkb Hka).
  rewrite (key_compare_antisym kb ka).
  destruct (key_compare ka kb) eqn:Hc; simpl.
  - right. left. repeat split. now apply key_compare_eq.
  - left. repeat split. intros ->. rewrite key_compare_refl in Hc. discriminate.
  - right. right. repeat split. intros ->. rewrite key_compare_refl in Hc. discriminate.
Qed.

Lemma plain_keys_are_comparable_witness :
  alt_key true [CStr "p"; CInt 2; CStr ".jpg"] = true /\
  alt_key true [CStr "q"; CInt 1; CStr ""] = true /\
  ((key_lt [CStr "p"; CInt 2; CStr ".jpg"] [CStr "q"; CInt 1; CStr ""] = Ok true /\
    key_lt [CStr "q"; CInt 1; CStr ""] [CStr "p"; CInt 2; CStr ".jpg"] = Ok false /\
    [CStr "p"; CInt 2; CStr ".jpg"] <> [CStr "q"; CInt 1; CStr ""]) \/
   (key_lt [CStr "p"; CInt 2; CStr ".jpg"] [CStr "q"; CInt 1; CStr ""] = Ok false /\
    key_lt [CStr "q"; CInt 1; CStr ""] [CStr "p"; CInt 2; CStr ".jpg"] = Ok false /\
    [CStr "p"; CInt 2; CStr ".jpg"] = [CStr "q"; CInt 1; CStr ""]) \/
   (key_lt [CStr "p"; CInt 2; CStr ".jpg"] [CStr "q"; CInt 1; CStr ""] = Ok false /\
    key_lt [CStr "q"; CInt 1; CStr ""] [CStr "p"; CInt 2; CStr ".jpg"] = Ok true /\
    [CStr "p"; CInt 2; CStr ".jpg"] <> [CStr "q"; CInt 1; CStr ""])).
Proof.
  apply (plain_keys_are_comparable "p2.jpg" "q1"); reflexivity.
Defined.

(** X4.  The key reads a run of digits as a number, so leading zeros do
    not count: two names with the same texts and the same numbers have the
    same key, and [sorted] leaves them in the order of the listing. *)
Theorem leading_zeros_tie (a b : string) (k : list chunk) :
  same_numbers (PyStr.re_split a) (PyStr.re_split b) ->
  natural_key a = Ok k ->
  natural_key b = Ok k /\
  sorted_natural [a; b] = Ok [a; b] /\ sorted_natural [b; a] = Ok [b; a].
Proof.
  intros Hs Ha.
  assert (Hb : natural_key b = Ok k).
  { unfold natural_key in *.
    now rewrite <- (same_numbers_keys _ _ Hs (re_split_shape a) (re_split_shape b)). }
  split; [exact Hb|].
  pose proof (key_lt_irrefl k true (natural_key_alt a k Ha)) as Hirr.
  unfold sorted_natural. simpl. unfold decorate. rewrite Ha, Hb. simpl.
  rewrite Hirr. simpl. now split.
Qed.

Lemma leading_zeros_tie_witness :
  natural_key "p1.jpg" = Ok [CStr "p"; CInt 1; CStr ".jpg"] /\
  sorted_natural ["p01.jpg"; "p1.jpg"] = Ok ["p01.jpg"; "p1.jpg"] /\
  sorted_natural ["p1.jpg"; "p01.jpg"] = Ok ["p1.jpg"; "p01.jpg"].
Proof.
  apply (leading_zeros_tie "p01.jpg" "p1.jpg"); [|reflexivity].
  change (PyStr.re_split "p01.jpg") with ["p"; "01"; ".jpg"].
  change (PyStr.re_split "p1.jpg") with ["p"; "1"; ".jpg"].
  apply same_numbers_cons; [reflexivity|apply same_numbers_last].
Defined.

(** X5.  Of two names that differ in a run of digits and whose keys can be
    computed, the one with the smaller number has the smaller key, and
    [sorted] puts it first whatever the order of the listing. *)
Theorem smaller_number_sorts_first (a b : string) (ka kb : list chunk) :
  smaller_number (PyStr.re_split a) (PyStr.re_split b) ->
  natural_key a = Ok ka -> natural_key b = Ok kb ->
  key_lt ka kb = Ok true /\ key_lt kb ka = Ok false /\
  sorted_natural [a; b] = Ok [a; b] /\ sorted_natural [b; a] = Ok [a; b].
Proof.
  intros Hs Ha Hb.
  destruct (natural_key_smaller_number a b ka kb Hs Ha Hb) as [Hab Hba].
  split; [exact Hab|]. split; [exact Hba|].
  now apply (sorted_natural_pair a b ka kb).
Qed.

Lemma smaller_number_sorts_first_witness :
  key_lt [CStr "img"; CInt 9; CStr ".png"] [CStr "img"; CInt 10; CStr ".png"] = Ok true /\
  key_lt [CStr "img"; CInt 10; CStr ".png"] [CStr "img"; CInt 9; CStr ".png"] = Ok false /\
  sorted_natural ["img9.png"; "img10.png"] = Ok ["img9.png"; "img10.png"] /\
  sorted_natural ["img10.png"; "img9.png"] = Ok ["img9.png"; "img10.png"].
Proof.
  apply (smaller_number_sorts_first "img9.png" "img10.png"); [|reflexivity|reflexivity].
  change (PyStr.re_split "img9.png") with ["img"; "9"; ".png"].
  change (PyStr.re_split "img10.png") with ["img"; "10"; ".png"].
  apply smaller_here; [reflexivity|apply same_last].
Defined.

(** X6.  One name whose key cannot be computed is enough to make
    [sorted] fail: the key raises a [ValueError], and so does [sorted],
    whatever the other names are and wherever the name stands in the
    list. *)
Theorem bad_key_makes_sorted_raise (l : list string) (x : string) :
  In x l -> is_ok (natural_key x) = false ->
  natural_key x = Raise ValueError /\ sorted_natural l = Raise ValueError.
Proof.
  intros Hx Hfail. split.
  - destruct (natural_key x) as [k|e] eqn:Hk; [discriminate|].
    now rewrite (natural_key_raises x e Hk).
  - destruct (rmap_raise_intro decorate l x Hx) as (e & He).
    { unfold decorate. now destruct (natural_key x). }
    apply rmap_raise_inv in He as Hy. destruct Hy as (y & _ & Hd).
    unfold decorate in Hd.
    destruct (natural_key y) as [k|e'] eqn:Hk; simpl in Hd; [discriminate|].
    injection Hd as ->. rewrite (natural_key_raises y e Hk) in He.
    unfold sorted_natural. now rewrite He.
Qed.

Lemma bad_key_makes_sorted_raise_witness :
  natural_key Demo.name_a = Raise ValueError /\
  sorted_natural ["a.jpg"; Demo.name_a; "b.jpg"] = Raise ValueError.
Proof.
  apply (bad_key_makes_sorted_raise ["a.jpg"; Demo.name_a; "b.jpg"] Demo.name_a).
  - right. now left.
  - reflexivity.
Defined.

(** ** Lemmas on the prompt *)

(** The two embeddings of [get_user_choice] return the same policy. *)
Lemma read_resolution_io_fst (lines : list string) :
  fst (read_resolution_io lines) = read_resolution lines.
Proof.
  induction lines as [|l rest IH]; [reflexivity|].
  simpl. unfold parse_resolution.
  destruct (PyStr.contains_char "x" (PyStr.lower (PyStr.strip l))); [|exact IH].
  destruct (rmap PyStr.int _) as [[|a [|b [|c ?]]]|]; try exact IH. reflexivity.
Qed.

Lemma get_user_choice_io_fst (lines : list string) :
  fst (get_user_choice_io lines) = get_user_choice lines.
Proof.
  destruct lines as [|l rest]; [reflexivity|].
  unfold get_user_choice_io, get_user_choice. cbv zeta.
  repeat match goal with
         | |- context [String.eqb ?a ?b] => destruct (String.eqb a b)
         end;
    try reflexivity; try apply read_resolution_io_fst;
    now destruct rest.
Qed.

Lemma read_resolution_step (l : string) (rest : list string) :
  read_resolution (l :: rest)
  = match parse_resolution l with
    | Some (width, height) => Ok (fixed_resolution width height)
    | None => read_resolution rest
    end.
Proof.
  simpl. unfold parse_resolution.
  destruct (PyStr.contains_char "x" (PyStr.lower (PyStr.strip l))); [|reflexivity].
  destruct (rmap PyStr.int _) as [[|a [|b [|c ?]]]|]; reflexivity.
Qed.

Lemma read_resolution_skips (bad : list string) (rest : list string) :
  Forall (fun l => parse_resolution l = None) bad ->
  read_resolution (bad ++ rest) = read_resolution rest /\
  read_resolution_io (bad ++ rest) = read_resolution_io rest.
Proof.
  induction 1 as [|l bad Hl _ IH]; [now split|].
  rewrite <- app_comm_cons, read_resolution_step. simpl. now rewrite Hl.
Qed.

Lemma forallb_str_lstrip (P sp : ascii -> bool) (s : string) :
  PyStr.forallb_str P s = true -> PyStr.forallb_str P (PyStr.lstrip_by sp s) = true.
Proof.
  induction s as [|c s IH]; simpl; [auto|]. intros H.
  destruct (sp c); [|exact H].
  apply andb_prop in H as [_ Hs]. now apply IH.
Qed.

Lemma forallb_str_rstrip (P sp : ascii -> bool) (s : string) :
  PyStr.forallb_str P s = true -> PyStr.forallb_str P (PyStr.rstrip_by sp s) = true.
Proof.
  induction s as [|c s IH]; simpl; [auto|]. intros H.
  apply andb_prop in H as [Hc Hs].
  destruct (PyStr.is_empty (PyStr.rstrip_by sp s) && sp c); [reflexivity|].
  simpl. now rewrite Hc, (IH Hs).
Qed.

Lemma plain_strip (s : string) : plain s -> plain (PyStr.strip s).
Proof.
  unfold plain, PyStr.strip, PyStr.lstrip, PyStr.rstrip. intros H.
  now apply forallb_str_rstrip, forallb_str_lstrip.
Qed.

(** On a plain string [isdigit] accepts runs of ASCII digits only. *)
Lemma plain_isdigit_run (s : string) :
  plain s -> PyStr.isdigit s = true -> digit_run s.
Proof.
  unfold plain, PyStr.isdigit, digit_run. intros Hp Hd.
  apply andb_prop in Hd as [Hne Hall]. apply negb_true_iff in Hne.
  split; [exact Hne|]. clear Hne.
  induction s as [|c s IH]; [reflexivity|]. simpl in *.
  apply andb_prop in Hp as [Hpc Hps]. apply andb_prop in Hall as [Hdc Hds].
  unfold plain_char in Hpc. rewrite Hdc in Hpc. simpl in Hpc.
  now rewrite Hpc, (IH Hps Hds).
Qed.

Lemma int_or_default_plain (s : string) (d : Z) :
  plain s -> exists v, int_or_default s d = Ok v.
Proof.
  intros Hp. unfold int_or_default.
  destruct (PyStr.isdigit s) eqn:Hd; [|now eexists].
  rewrite (int_digit_run s (plain_isdigit_run s Hp Hd)). now eexists.
Qed.

Lemma read_resolution_raises (lines : list string) (e : exn) :
  read_resolution lines = Raise e -> e = EOFError.
Proof.
  induction lines as [|l rest IH]; [now intros [= <-]|].
  rewrite read_resolution_step.
  destruct (parse_resolution l) as [[wd ht]|]; [discriminate|exact IH].
Qed.

Lemma read_resolution_returns (lines : list string) (pol : policy) :
  read_resolution lines = Ok pol ->
  exists width height, pol = fixed_resolution width height.
Proof.
  induction lines as [|l rest IH]; [discriminate|].
  rewrite read_resolution_step.
  destruct (parse_resolution l) as [[wd ht]|]; [|exact IH].
  intros [= <-]. now exists wd, ht.
Qed.

(** ** Lemmas on paths *)

Lemma string_app_assoc (a b c : string) : (a +:+ b) +:+ c = a +:+ (b +:+ c).
Proof.
  induction a as [|x a IH]; [reflexivity|].
  change (String x ((a +:+ b) +:+ c) = String x (a +:+ (b +:+ c))).
  f_equal. exact IH.
Qed.

Lemma basename_after_sep (a b : string) :
  PyStr.basename (a +:+ "/" +:+ b) = PyStr.basename b.
Proof.
  induction a as [|c a IH].
  - change ("" +:+ "/" +:+ b) with (String "/" b).
    cbn [PyStr.basename PyStr.contains_char]. reflexivity.
  - change (String c a +:+ "/" +:+ b) with (String c (a +:+ "/" +:+ b)).
    cbn [PyStr.basename].
    replace (PyStr.contains_char "/" (String c (a +:+ "/" +:+ b))) with true; [exact IH|].
    cbn [PyStr.contains_char]. rewrite contains_char_app.
    simpl. now rewrite !orb_true_r.
Qed.

Lemma endswith_sep_split (a : string) :
  PyStr.endswith a "/" = true -> exists a0, a = a0 +:+ "/".
Proof.
  induction a as [|c a IH]; [discriminate|].
  cbn [PyStr.endswith]. intros H. apply orb_prop in H as [H|H].
  - apply String.eqb_eq in H. exists "". exact H.
  - destruct (IH H) as (a0 & ->). now exists (String c a0).
Qed.

(** ** [get_user_choice] (lines 19-54) *)

(** X7.  The image number of option 1 (and of an unknown option), the
    width of option 4 and the height of option 5 are never negative: such an
    answer is read as a number only when it is made of digits, and replaced
    by the default otherwise.  The width and the height of option 3 are read
    with their signs: the answer [-5x-7] gives a negative width and a
    negative height. *)
Theorem prompt_numbers_are_not_negative (lines : list string) :
  (forall n, get_user_choice lines = Ok (use_nth_image n) -> 0 <= n) /\
  (forall width, get_user_choice lines = Ok (fixed_width width) -> 0 <= width) /\
  (forall height, get_user_choice lines = Ok (fixed_height height) -> 0 <= height) /\
  get_user_choice ["3"; "-5x-7"] = Ok (fixed_resolution (-5) (-7)).
Proof.
  assert (H : forall pol, get_user_choice lines = Ok pol ->
              match pol with
              | use_nth_image n => 0 <= n
              | fixed_width n => 0 <= n
              | fixed_height n => 0 <= n
              | _ => True
              end).
  { intros pol. unfold get_user_choice. destruct lines as [|l rest]; [discriminate|].
    cbv zeta.
    generalize (if PyStr.is_empty (PyStr.strip l) then "1" else PyStr.strip l).
    intros choice.
    destruct (String.eqb choice "1").
    { destruct rest as [|x rest]; [discriminate|].
      destruct (int_or_default (PyStr.strip x) 3) as [v|] eqn:Hv; simpl; [|discriminate].
      intros [= <-]. apply (int_or_default_nonneg (PyStr.strip x) 3 v); [lia|exact Hv]. }
    destruct (String.eqb choice "2"); [now intros [= <-]|].
    destruct (String.eqb choice "3").
    { intros H. apply read_resolution_returns in H as (wd & ht & ->). exact I. }
    destruct (String.eqb choice "4").
    { destruct rest as [|x rest]; [discriminate|].
      destruct (int_or_default (PyStr.strip x) 800) as [v|] eqn:Hv; simpl; [|discriminate].
      intros [= <-]. apply (int_or_default_nonneg (PyStr.strip x) 800 v); [lia|exact Hv]. }
    destruct (String.eqb choice "5").
    { destruct rest as [|x rest]; [discriminate|].
      destruct (int_or_default (PyStr.strip x) 600) as [v|] eqn:Hv; simpl; [|discriminate].
      intros [= <-]. apply (int_or_default_nonneg (PyStr.strip x) 600 v); [lia|exact Hv]. }
    destruct (String.eqb choice "6"); [now intros [= <-]|].
    intros [= <-]. lia. }
  split; [intros n Hn; exact (H _ Hn)|].
  split; [intros n Hn; exact (H _ Hn)|].
  split; [intros n Hn; exact (H _ Hn)|].
  reflexivity.
Qed.

Lemma prompt_numbers_are_not_negative_witness :
  get_user_choice ["1"; " 007 "] = Ok (use_nth_image 7) /\ 0 <= 7.
Proof.
  split; [reflexivity|].
  exact (proj1 (prompt_numbers_are_not_negative ["1"; " 007 "]) 7 eq_refl).
Defined.

(** X8.  The prompt of option 3 asks again until a line reads as two
    integers around one [x]: the lines before it are read and dropped, the
    first such line gives the resolution and the lines after it stay unread.
    When no line fits, the console runs out and [EOFError] is raised.  (The
    line that is accepted is taken to have at most 4300 characters, so that
    [int()] converts its digits.) *)
Theorem resolution_prompt_asks_again (l : string) (bad : list string)
    (good : string) (rest : list string) (width height : Z) :
  PyStr.strip l = "3" ->
  Forall (fun x => parse_resolution x = None) bad ->
  short good ->
  parse_resolution good = Some (width, height) ->
  get_user_choice (l :: bad ++ good :: rest) = Ok (fixed_resolution width height) /\
  snd (get_user_choice_io (l :: bad ++ good :: rest)) = rest /\
  get_user_choice (l :: bad) = Raise EOFError.
Proof.
  intros Hl Hbad _ Hgood.
  assert (Hio : get_user_choice_io (l :: bad ++ good :: rest)
                = (Ok (fixed_resolution width height), rest)).
  { unfold get_user_choice_io. rewrite Hl. cbn [PyStr.is_empty String.eqb Ascii.eqb Bool.eqb].
    rewrite (proj2 (read_resolution_skips bad (good :: rest) Hbad)).
    simpl. now rewrite Hgood. }
  split; [|split].
  - now rewrite <- get_user_choice_io_fst, Hio.
  - now rewrite Hio.
  - unfold get_user_choice. rewrite Hl. cbn [PyStr.is_empty String.eqb Ascii.eqb Bool.eqb].
    rewrite <- (app_nil_r bad).
    now rewrite (proj1 (read_resolution_skips bad [] Hbad)).
Qed.

Lemma resolution_prompt_asks_again_witness :
  get_user_choice
    (" 3" :: ["800"; "800x"; "axb"; "1x2x3"; String "5" (String (ascii_of_nat 28) "x6")]
          ++ "1024 X 7_68" :: ["later"])
  = Ok (fixed_resolution 1024 768) /\
  snd (get_user_choice_io
         (" 3" :: ["800"; "800x"; "axb"; "1x2x3"; String "5" (String (ascii_of_nat 28) "x6")]
               ++ "1024 X 7_68" :: ["later"]))
  = ["later"] /\
  get_user_choice
    (" 3" :: ["800"; "800x"; "axb"; "1x2x3"; String "5" (String (ascii_of_nat 28) "x6")])
  = Raise EOFError.
Proof.
  apply (resolution_prompt_asks_again " 3"
           ["800"; "800x"; "axb"; "1x2x3"; String "5" (String (ascii_of_nat 28) "x6")]
           "1024 X 7_68" ["later"] 1024 768).
  - reflexivity.
  - repeat constructor.
  - unfold short. simpl. lia.
  - reflexivity.
Defined.

(** X9.  On answers of at most 4300 characters in which [str.isdigit] and
    [[0-9]] agree, in particular on ASCII answers of that length, the prompt
    raises nothing but the [EOFError] of a console that ran out. *)
Theorem prompt_raises_only_eof (lines : list string) (e : exn) :
  Forall plain lines -> Forall short lines ->
  get_user_choice lines = Raise e -> e = EOFError.
Proof.
  intros Hp _. unfold get_user_choice. destruct lines as [|l rest]; [now intros [= <-]|].
  inversion Hp as [|? ? _ Hrest]; subst.
  cbv zeta.
  generalize (if PyStr.is_empty (PyStr.strip l) then "1" else PyStr.strip l).
  intros choice.
  assert (Hnum : forall d (k : Z -> policy),
             match rest with
             | [] => Raise EOFError
             | x :: _ => v <-- int_or_default (PyStr.strip x) d ; Ok (k v)
             end = Raise e -> e = EOFError).
  { intros d k. destruct rest as [|x rest']; [now intros [= <-]|].
    inversion Hrest as [|? ? Hx _]; subst.
    destruct (int_or_default_plain (PyStr.strip x) d (plain_strip x Hx)) as (v & ->).
    discriminate. }
  destruct (String.eqb choice "1"); [exact (Hnum 3 use_nth_image)|].
  destruct (String.eqb choice "2"); [discriminate|].
  destruct (String.eqb choice "3"); [apply read_resolution_raises|].
  destruct (String.eqb choice "4"); [exact (Hnum 800 fixed_width)|].
  destruct (String.eqb choice "5"); [exact (Hnum 600 fixed_height)|].
  destruct (String.eqb choice "6"); discriminate.
Qed.

Lemma prompt_raises_only_eof_witness :
  get_user_choice ["3"; "800*600"; "wide"] = Raise EOFError /\ EOFError = EOFError.
Proof.
  split; [reflexivity|].
  apply (prompt_raises_only_eof ["3"; "800*600"; "wide"] EOFError).
  - repeat constructor.
  - repeat constructor; unfold short; simpl; lia.
  - reflexivity.
Defined.

(** X10.  At the prompt of the image number, reached by [1] or by an empty
    first answer, a run of at most 4300 ASCII digits is read as its number,
    leading zeros included, and every answer [str.isdigit] refuses (an empty
    one, a negative number, a word) gives the default 3. *)
Theorem nth_prompt_reads_number (l n : string) (rest : list string) :
  PyStr.strip l = "" \/ PyStr.strip l = "1" ->
  (digit_run (PyStr.strip n) -> short (PyStr.strip n) ->
   get_user_choice (l :: n :: rest)
   = Ok (use_nth_image (digits_value 0 (PyStr.strip n)))) /\
  (PyStr.isdigit (PyStr.strip n) = false ->
   get_user_choice (l :: n :: rest) = Ok (use_nth_image 3)).
Proof.
  intros Hl.
  assert (Hc : get_user_choice (l :: n :: rest)
               = (v <-- int_or_default (PyStr.strip n) 3 ; Ok (use_nth_image v))).
  { unfold get_user_choice. now destruct Hl as [-> | ->]. }
  rewrite Hc. unfold int_or_default. split.
  - intros Hd _. now rewrite (isdigit_digit_run _ Hd), (int_digit_run _ Hd).
  - now intros ->.
Qed.

Lemma nth_prompt_reads_number_witness :
  get_user_choice ("" :: " 012 " :: []) = Ok (use_nth_image 12) /\
  get_user_choice ("1" :: "-2" :: []) = Ok (use_nth_image 3).
Proof.
  split.
  - apply (proj1 (nth_prompt_reads_number "" " 012 " [] (or_introl eq_refl))).
    + split; reflexivity.
    + unfold short. simpl. lia.
  - apply (proj2 (nth_prompt_reads_number "1" "-2" [] (or_intror eq_refl))).
    reflexivity.
Defined.

(** ** The main block (lines 151-163) *)

(** X11.  Whatever [process_images] does, the main block prints the line
    of completion last, after the line of the error when there was one; no
    exception other than the [EOFError] of a console that ran out leaves the
    program, and none at all when a line is left to be read after the
    prompt. *)
Theorem main_always_completes (frozen : bool) (w : world) (lines : list string)
    (st : state) :
  last (printed (main frozen w lines st)) = Some Completed /\
  (forall e, fst (process_images w lines st) = Raise e ->
             printed (main frozen w lines st) = [ProgramError e; Completed]) /\
  (fst (process_images w lines st) = Ok tt ->
   printed (main frozen w lines st) = [Completed]) /\
  (forall e, exit (main frozen w lines st) = Raise e -> e = EOFError) /\
  (snd (get_user_choice_io lines) <> [] -> exit (main frozen w lines st) = Ok tt).
Proof.
  unfold main. destruct (process_images w lines st) as [[[]|e] st'];
    destruct frozen; cbn [negb fst snd];
    destruct (snd (get_user_choice_io lines)) as [|x rest]; cbn;
    repeat split; try congruence; intros; congruence.
Qed.

(** X12.  The main block leaves the directories as [process_images] left
    them; when the prompt returned a policy, the staging directory is gone
    at the end of the program, whether the run succeeded or not. *)
Theorem main_removes_temp_dir (frozen : bool) (w : world) (lines : list string)
    (st : state) (pol : policy) :
  get_user_choice lines = Ok pol ->
  final (main frozen w lines st) = snd (process_images w lines st) /\
  temp (final (main frozen w lines st)) = None.
Proof.
  intros Hpol.
  assert (Hf : final (main frozen w lines st) = snd (process_images w lines st)).
  { unfold main. destruct (process_images w lines st) as [[[]|e] st'];
      destruct frozen; cbn [negb fst snd];
      destruct (snd (get_user_choice_io lines)) as [|x rest]; reflexivity. }
  split; [exact Hf|]. rewrite Hf. now apply (process_images_cleanup w lines pol).
Qed.

Lemma main_removes_temp_dir_witness :
  final (main true Demo.w ["2"; ""] Demo.st0)
  = snd (process_images Demo.w ["2"; ""] Demo.st0) /\
  temp (final (main true Demo.w ["2"; ""] Demo.st0)) = None.
Proof.
  apply (main_removes_temp_dir true Demo.w ["2"; ""] Demo.st0 max_resolution).
  reflexivity.
Defined.

(** ** [resource_path] (lines 11-17) *)

(** X13.  [resource_path] keeps the last component of the path it is
    given; an absolute path is returned as it is, whatever the base
    directory; and for a relative path under a base directory ([_MEIPASS]
    in a packaged program, the working directory otherwise) that does not
    end with the separator the result is the base, the separator and the
    path. *)
Theorem resource_path_keeps_name (meipass : option string) (cwd : string)
    (relative_path : string) :
  PyStr.basename (resource_path meipass cwd relative_path)
  = PyStr.basename relative_path /\
  (PyPath.is_abs relative_path = true ->
   resource_path meipass cwd relative_path = relative_path) /\
  (PyPath.is_abs relative_path = false ->
   forall base, base = match meipass with Some p => p | None => cwd end ->
   PyStr.is_empty base = false ->
   PyStr.endswith base "/" = false ->
   resource_path meipass cwd relative_path = PyStr.join base relative_path).
Proof.
  unfold resource_path. cbv zeta.
  set (base_path := match meipass with Some p => p | None => cwd end).
  split; [|split].
  - unfold PyPath.join.
    destruct (PyPath.is_abs relative_path); [reflexivity|].
    destruct (PyStr.is_empty base_path) eqn:He.
    + destruct base_path; [reflexivity|discriminate].
    + simpl. destruct (PyStr.endswith base_path "/") eqn:Hs.
      * destruct (endswith_sep_split base_path Hs) as (a0 & ->).
        rewrite string_app_assoc. apply basename_after_sep.
      * apply basename_after_sep.
  - unfold PyPath.join. now intros ->.
  - intros Hrel base -> He Hs. unfold PyPath.join. fold base_path in He, Hs.
    now rewrite Hrel, He, Hs.
Qed.

(** ** Lemmas on the size and the mode of a staged image *)

Section StagedImage.

Variable w : world.

Lemma resize_size (img : image) (sz : Z * Z) (img' : image) :
  resize w img sz = Ok img' -> im_size img' = sz /\ im_mode img' = im_mode img.
Proof.
  unfold resize. destruct (resize_ok w img sz); [|discriminate].
  now intros [= <-].
Qed.

Lemma drop_alpha_size (img img' : image) :
  drop_alpha w img = Ok img' ->
  im_size img' = im_size img /\
  im_mode img' = (if String.eqb (im_mode img) "RGBA" then "RGB" else im_mode img).
Proof.
  unfold drop_alpha, convert_RGB.
  destruct (String.eqb (im_mode img) "RGBA"); [destruct (convert_ok w img)|];
    try discriminate; now intros [= <-].
Qed.

Lemma size_eqb_eq (a b : Z * Z) : size_eqb a b = true <-> a = b.
Proof.
  unfold size_eqb. destruct a as [a1 a2], b as [b1 b2]. simpl.
  rewrite andb_true_iff, !Z.eqb_eq. split; [intros [-> ->]|intros [= -> ->]]; auto.
Qed.

Lemma adjust_size (pol : policy) (target : option (Z * Z)) (img img' : image) :
  adjust w pol target img = Ok img' ->
  im_mode img' = im_mode img /\
  im_size img' =
  match pol with
  | fixed_width width => (width, snd (im_size img))
  | fixed_height height => (fst (im_size img), height)
  | _ => match target with Some t => t | None => im_size img end
  end.
Proof.
  unfold adjust.
  destruct pol; try (intros H; apply resize_size in H as [-> ->]; now split);
    (destruct target as [t|];
     [destruct (size_eqb (im_size img) t) eqn:Heq; cbn [negb];
      [apply size_eqb_eq in Heq; intros [= <-]; now split
      |intros H; apply resize_size in H as [-> ->]; now split]
     |intros [= <-]; now split]).
Qed.

(** What lines 106-129 make of a decoded image. *)
Lemma conversion_shape (pol : policy) (target : option (Z * Z)) (p : string)
    (img : image) :
  conversion w pol target p = Ok img ->
  exists d,
    decoded w p = Ok d /\
    im_mode img = (if String.eqb (im_mode d) "RGBA" then "RGB" else im_mode d) /\
    im_size img =
    match pol with
    | fixed_width width => (width, snd (im_size d))
    | fixed_height height => (fst (im_size d), height)
    | original_size => im_size d
    | _ => match target with Some t => t | None => im_size d end
    end.
Proof.
  unfold conversion.
  destruct (decoded w p) as [d|] eqn:Hd; [|destruct pol; discriminate].
  intros H. exists d. split; [reflexivity|].
  destruct pol; cbn [rbind] in H;
    try (destruct (adjust w _ target d) as [j|] eqn:Hj; cbn [rbind] in H; [|discriminate];
         apply adjust_size in Hj as [Hm Hs]; apply drop_alpha_size in H as [Hs' Hm'];
         rewrite Hm', Hs', Hm, Hs; now split).
  apply drop_alpha_size in H as [Hs' Hm']. now rewrite Hm', Hs'.
Qed.

(** A staged image is what lines 106-129 hand to [img.save], in the mode
    the writer stored it in. *)
Lemma stage_outcome_conversion (pol : policy) (target : option (Z * Z)) (p : string)
    (img : image) :
  stage_outcome w pol target p = Ok img ->
  exists c,
    conversion w pol target p = Ok c /\
    save_result w c (temp_path w p) = Saved (im_mode img) /\
    im_src img = im_src c /\ im_size img = im_size c.
Proof.
  unfold stage_outcome.
  destruct (conversion w pol target p) as [c|]; simpl; [|discriminate].
  destruct (save_result w c (temp_path w p)) as [md| |] eqn:Hs; try discriminate.
  intros [= <-]. exists c. now repeat split.
Qed.

End StagedImage.

(** ** Lemmas on the images a folder opens *)

Lemma open_sizes_opened (w : world) (files : list string) :
  forall st sizes st1,
  open_sizes w files st = (Ok sizes, st1) ->
  opened st1 = (opened st ++ files)%list.
Proof.
  induction files as [|f files IH]; intros st sizes st1 H; simpl in H.
  - inversion H; subst. now rewrite app_nil_r.
  - unfold bind in H. rewrite Image_open_eq in H.
    destruct (decoded w f) as [img|e]; [|discriminate].
    destruct (open_sizes w files (add_opened f st)) as [[sz|e] st2] eqn:Hs;
      [|discriminate].
    unfold ret in H. inversion H; subst.
    rewrite (IH _ _ _ Hs). unfold add_opened. simpl. now rewrite <- app_assoc.
Qed.

Lemma open_sizes_raise (w : world) (files : list string) (f : string) :
  In f files -> is_ok (decoded w f) = false ->
  forall st, exists st1, open_sizes w files st = (Raise ImageError, st1).
Proof.
  induction files as [|g files IH]; intros Hin Hf st; [destruct Hin|].
  simpl. unfold bind. rewrite Image_open_eq.
  destruct (decoded w g) as [img|e] eqn:Hg.
  - destruct Hin as [->|Hin]; [rewrite Hg in Hf; discriminate|].
    destruct (IH Hin Hf (add_opened g st)) as (st1 & ->). now eexists.
  - unfold decoded in Hg. destruct (decode w g) as [[sz md]|]; [discriminate|].
    inversion Hg. now eexists.
Qed.

Lemma resolve_target_opened (w : world) (pol : policy) (files : list string)
    (st st1 : state) (target : option (Z * Z)) :
  resolve_target w pol files st = (Ok target, st1) ->
  opened st1 = (opened st ++ resolver_opens pol files)%list.
Proof.
  destruct pol; simpl; unfold ret;
    try (intros [= <- <-]; now rewrite app_nil_r).
  - unfold bind, lift.
    destruct (py_index files _) as [f|e]; [|discriminate].
    rewrite Image_open_eq. destruct (decoded w f); [|discriminate].
    now intros [= <- <-].
  - unfold bind at 1.
    destruct (open_sizes w files st) as [[sizes|e] st2] eqn:Hs; [|discriminate].
    apply open_sizes_opened in Hs.
    unfold bind, lift, ret.
    destruct (py_max (map fst sizes)); [|discriminate].
    destruct (py_max (map snd sizes)); [|discriminate].
    now intros [= <- <-].
Qed.

Lemma resolve_target_some (w : world) (pol : policy) (files : list string)
    (st st1 : state) (target : option (Z * Z)) :
  has_target pol = true ->
  resolve_target w pol files st = (Ok target, st1) ->
  exists t, target = Some t /\
            forall width height, pol = fixed_resolution width height ->
                                 t = (width, height).
Proof.
  destruct pol; try discriminate; intros _; simpl; unfold ret.
  - unfold bind, lift.
    destruct (py_index files _) as [f|e]; [|discriminate].
    destruct (Image_open w f st) as [[img|e] st2]; [|discriminate].
    intros [= <- <-]. eexists. split; [reflexivity|discriminate].
  - unfold bind at 1.
    destruct (open_sizes w files st) as [[sizes|e] st2]; [|discriminate].
    unfold bind, lift, ret.
    destruct (py_max (map fst sizes)); [|discriminate].
    destruct (py_max (map snd sizes)); [|discriminate].
    intros [= <- <-]. eexists. split; [reflexivity|discriminate].
  - intros [= <- <-]. eexists. split; [reflexivity|]. now intros ? ? [= <- <-].
Qed.

Lemma staged_none_all_fail (w : world) (pol : policy) (target : option (Z * Z))
    (files : list string) :
  staged_images w pol target files = [] ->
  length (failures w pol target files) = length files.
Proof.
  induction files as [|p files IH]; simpl; [reflexivity|].
  destruct (stage_outcome w pol target p); [discriminate|].
  intros H. simpl. now rewrite (IH H).
Qed.

Lemma nth_error_is_lookup {A : Type} (l : list A) (i : nat) :
  nth_error l i = l !! i.
Proof.
  revert i. induction l as [|a l IH]; intros [|i]; simpl; auto.
Qed.

(** ** Staging one image (lines 105-137) *)

(** X14.  The staged path of an image is the staging directory and the
    name of the image: it does not depend on the folder, so two folders that
    hold a file of the same name stage it at the same path, while two files
    of one folder never share a staged path. *)
Theorem staged_path_ignores_folder (w : world) (a b f g : string) :
  PyStr.contains_char "/" f = false ->
  temp_path w (PyStr.join (folder_path w a) f) = PyStr.join (temp_dir w) f /\
  temp_path w (PyStr.join (folder_path w a) f)
  = temp_path w (PyStr.join (folder_path w b) f) /\
  (PyStr.contains_char "/" g = false ->
   temp_path w (PyStr.join (folder_path w a) f)
   = temp_path w (PyStr.join (folder_path w a) g) -> f = g).
Proof.
  intros Hf. rewrite !(temp_path_join w _ f Hf). split; [reflexivity|].
  split; [reflexivity|].
  intros Hg. rewrite (temp_path_join w _ g Hg). apply join_inj.
Qed.

Lemma staged_path_ignores_folder_witness :
  temp_path Demo.w (PyStr.join (folder_path Demo.w "A") "p2.png")
  = PyStr.join (temp_dir Demo.w) "p2.png" /\
  temp_path Demo.w (PyStr.join (folder_path Demo.w "A") "p2.png")
  = temp_path Demo.w (PyStr.join (folder_path Demo.w "B") "p2.png") /\
  (PyStr.contains_char "/" "p10.jpg" = false ->
   temp_path Demo.w (PyStr.join (folder_path Demo.w "A") "p2.png")
   = temp_path Demo.w (PyStr.join (folder_path Demo.w "A") "p10.jpg") ->
   "p2.png" = "p10.jpg").
Proof.
  apply (staged_path_ignores_folder Demo.w "A" "B" "p2.png" "p10.jpg"). reflexivity.
Defined.

(** X15.  The size of a staged image, policy by policy: the width of the
    policy and the native height under [fixed_width], the native width and
    the height of the policy under [fixed_height], the native size under
    [original_size], and the target size of the folder under the three other
    policies. *)
Theorem staged_size_by_policy (w : world) (pol : policy) (target : option (Z * Z))
    (p : string) (img : image) :
  stage_outcome w pol target p = Ok img ->
  exists d,
    decoded w p = Ok d /\
    im_size img =
    match pol with
    | fixed_width width => (width, snd (im_size d))
    | fixed_height height => (fst (im_size d), height)
    | original_size => im_size d
    | _ => match target with Some t => t | None => im_size d end
    end.
Proof.
  intros H. apply stage_outcome_conversion in H as (c & Hc & _ & _ & Hsz).
  destruct (conversion_shape w pol target p c Hc) as (d & Hd & _ & Hs).
  exists d. split; [exact Hd|]. now rewrite Hsz.
Qed.

Lemma staged_size_by_policy_witness :
  exists d,
    decoded Demo.w "/w/input/A/p2.png" = Ok d /\
    im_size (mkImage "/w/input/A/p2.png" (64, 50) "RGB") = (64, snd (im_size d)).
Proof.
  apply (staged_size_by_policy Demo.w (fixed_width 64) None "/w/input/A/p2.png"
           (mkImage "/w/input/A/p2.png" (64, 50) "RGB")).
  reflexivity.
Defined.

(** X16.  The image handed to [img.save] has the mode it was decoded in,
    except that mode [RGBA] has become [RGB]: no image of mode [RGBA] is
    handed to [img.save].  The staged file has the source and the size of
    that image, in the mode the writer stored it in. *)
Theorem saved_image_is_never_RGBA (w : world) (pol : policy)
    (target : option (Z * Z)) (p : string) :
  (forall c, conversion w pol target p = Ok c ->
     im_mode c <> "RGBA" /\
     exists d,
       decoded w p = Ok d /\
       im_mode c = (if String.eqb (im_mode d) "RGBA" then "RGB" else im_mode d)) /\
  (forall img, stage_outcome w pol target p = Ok img ->
     exists c,
       conversion w pol target p = Ok c /\
       save_result w c (temp_path w p) = Saved (im_mode img) /\
       im_src img = im_src c /\ im_size img = im_size c).
Proof.
  split.
  - intros c H.
    destruct (conversion_shape w pol target p c H) as (d & Hd & Hm & _).
    split; [|now exists d].
    rewrite Hm. destruct (String.eqb_spec (im_mode d) "RGBA"); [discriminate|assumption].
  - intros img H. now apply stage_outcome_conversion.
Qed.

Lemma saved_image_is_never_RGBA_witness :
  stage_outcome Demo2.w_webp original_size None "/w/input/G/g.webp"
  = Ok (mkImage "/w/input/G/g.webp" (10, 20) "RGBA") /\
  exists c,
    conversion Demo2.w_webp original_size None "/w/input/G/g.webp" = Ok c /\
    im_mode c = "LA" /\ im_mode c <> "RGBA" /\
    save_result Demo2.w_webp c (temp_path Demo2.w_webp "/w/input/G/g.webp")
    = Saved "RGBA".
Proof.
  split; [reflexivity|].
  destruct (saved_image_is_never_RGBA Demo2.w_webp original_size None
              "/w/input/G/g.webp") as [Hmem Hfile].
  destruct (Hfile (mkImage "/w/input/G/g.webp" (10, 20) "RGBA") eq_refl)
    as (c & Hc & Hs & _ & _).
  destruct (Hmem c Hc) as (Hne & d & Hd & Hm).
  exists c. split; [exact Hc|]. split; [|split; [exact Hne|exact Hs]].
  vm_compute in Hd. injection Hd as <-. exact Hm.
Defined.

(** X17.  Under a policy with a target size, an image that already has
    the target size is not resized: it is staged even where resizing fails.
    Any other image is resized to the target size. *)
Theorem matching_size_is_not_resized (w : world) (pol : policy) (t : Z * Z)
    (p : string) (d : image) :
  has_target pol = true ->
  decoded w p = Ok d ->
  (im_size d = t -> conversion w pol (Some t) p = drop_alpha w d) /\
  (im_size d <> t ->
   conversion w pol (Some t) p = (r <-- resize w d t ; drop_alpha w r)).
Proof.
  intros Hpol Hd. unfold conversion. rewrite Hd.
  destruct pol; try discriminate; cbn [rbind adjust]; split; intros Hs.
  all: destruct (size_eqb (im_size d) t) eqn:Heq; cbn [negb rbind]; try reflexivity.
  all: try (apply size_eqb_eq in Heq; contradiction).
  all: apply (proj2 (size_eqb_eq _ _)) in Hs; congruence.
Qed.

Lemma matching_size_is_not_resized_witness :
  (im_size (mkImage "/w/input/M/1.png" (100, 200) "RGB") = (100, 200) ->
   conversion Demo2.w_noresize (fixed_resolution 100 200) (Some (100, 200))
     "/w/input/M/1.png"
   = drop_alpha Demo2.w_noresize (mkImage "/w/input/M/1.png" (100, 200) "RGB")) /\
  (im_size (mkImage "/w/input/M/1.png" (100, 200) "RGB") <> (100, 200) ->
   conversion Demo2.w_noresize (fixed_resolution 100 200) (Some (100, 200))
     "/w/input/M/1.png"
   = (r <-- resize Demo2.w_noresize (mkImage "/w/input/M/1.png" (100, 200) "RGB")
              (100, 200) ;
      drop_alpha Demo2.w_noresize r)).
Proof.
  apply (matching_size_is_not_resized Demo2.w_noresize (fixed_resolution 100 200)
           (100, 200) "/w/input/M/1.png"); reflexivity.
Defined.

(** ** One folder (lines 74-144) *)

(** X18.  Under [use_nth_image], [max_resolution] and [fixed_resolution]
    the target size of a folder is resolved before its images are staged,
    and all the pages of the PDF of the folder have that size; under
    [fixed_resolution] it is the size of the policy. *)
Theorem pages_have_target_size (w : world) (pol : policy) (folder_name : string)
    (st st' : state) (r : result unit) (m : gmap string image) :
  temp st = Some m ->
  wf_listing (listdir w (folder_path w folder_name)) ->
  process_folder w pol folder_name st = (r, st') ->
  yields_pdf w folder_name st st' ->
  has_target pol = true ->
  exists files t st1,
    image_files w folder_name = Ok files /\
    resolve_target w pol files st = (Ok (Some t), st1) /\
    output st' !! pdf_path w folder_name
    = Some (Pdf (staged_images w pol (Some t) files)) /\
    Forall (fun page => im_size page = t) (staged_images w pol (Some t) files) /\
    (forall width height, pol = fixed_resolution width height -> t = (width, height)).
Proof.
  intros Hm Hwf Hrun Hy Hpol.
  destruct (process_folder_yields w pol folder_name st st' r m Hm Hwf Hrun Hy)
    as (files & target & st1 & Hfiles & Hres & _ & Hout).
  destruct (resolve_target_some w pol files st st1 target Hpol Hres) as (t & -> & Ht).
  exists files, t, st1.
  split; [exact Hfiles|]. split; [exact Hres|]. split; [exact Hout|].
  split; [|exact Ht].
  eapply Forall_impl; [apply staged_images_own|].
  intros page (p & _ & Ho). cbv beta.
  apply stage_outcome_conversion in Ho as (c & Hc & _ & _ & Hsz).
  destruct (conversion_shape w pol (Some t) p c Hc) as (d & _ & _ & Hs).
  rewrite Hsz, Hs. now destruct pol.
Qed.

Lemma pages_have_target_size_witness :
  resolve_target Demo.w max_resolution ["/w/input/M/1.png"; "/w/input/M/2.png"]
    Demo.st1
  = (Ok (Some (300, 200)),
     mkState (Some ∅) ∅ [] ["/w/input/M/1.png"; "/w/input/M/2.png"]) /\
  output (snd (process_folder Demo.w max_resolution "M" Demo.st1))
    !! pdf_path Demo.w "M"
  = Some (Pdf [mkImage "/w/input/M/1.png" (300, 200) "RGB";
               mkImage "/w/input/M/2.png" (300, 200) "RGB"]).
Proof.
  destruct (pages_have_target_size Demo.w max_resolution "M" Demo.st1
              (snd (process_folder Demo.w max_resolution "M" Demo.st1))
              (fst (process_folder Demo.w max_resolution "M" Demo.st1)) ∅
              eq_refl Demo_wf_M (surjective_pairing _))
    as (files & t & st1 & Hfiles & Hres & Hout & _ & _).
  - exists []. vm_compute. reflexivity.
  - reflexivity.
  - vm_compute in Hfiles. injection Hfiles as <-.
    split; [vm_compute; reflexivity|].
    vm_compute in Hres. injection Hres as <- _.
    exact Hout.
Defined.

(** X19.  When the PDF assembler refuses the staged images of a folder,
    the folder ends with its exception after its output file was opened for
    writing: an empty file is left under the name of the PDF, in the place
    of whatever PDF was there before, and the line of the generated PDF is
    not printed. *)
Theorem assembler_failure_leaves_empty_file (w : world) (pol : policy)
    (folder_name : string) (st st1 : state) (m : gmap string image)
    (files : list string) (target : option (Z * Z)) :
  isdir w (folder_path w folder_name) = true ->
  wf_listing (listdir w (folder_path w folder_name)) ->
  image_files w folder_name = Ok files -> files <> [] ->
  resolve_target w pol files st = (Ok target, st1) ->
  temp st = Some m ->
  staged_images w pol target files <> [] ->
  pdf_ok w (staged_images w pol target files) = false ->
  fst (process_folder w pol folder_name st) = Raise PdfError /\
  output (snd (process_folder w pol folder_name st)) !! pdf_path w folder_name
  = Some EmptyFile /\
  log (snd (process_folder w pol folder_name st))
  = (log st ++ failures w pol target files)%list.
Proof.
  intros Hdir Hwf Hfiles Hne Hres Hm Hst Hok.
  pose proof (image_files_NoDup w folder_name files Hwf Hfiles) as Hnd.
  destruct (process_folder_staged w pol folder_name st st1 m files target
              Hdir Hfiles Hne Hres Hm Hnd) as (m' & _ & Heq).
  cbn zeta in Heq. rewrite Heq. clear Heq.
  destruct (staged_images w pol target files) as [|pg pages]; [congruence|].
  rewrite Hok. cbn [fst snd]. unfold set_output. cbn [output log].
  split; [reflexivity|]. split; [apply lookup_insert_eq|reflexivity].
Qed.

Lemma assembler_failure_leaves_empty_file_witness :
  Demo2.st_old_pdf.(output) !! pdf_path Demo2.w_nopdf "M" = Some (Pdf []) /\
  fst (process_folder Demo2.w_nopdf original_size "M" Demo2.st_old_pdf)
  = Raise PdfError /\
  output (snd (process_folder Demo2.w_nopdf original_size "M" Demo2.st_old_pdf))
    !! pdf_path Demo2.w_nopdf "M" = Some EmptyFile /\
  log (snd (process_folder Demo2.w_nopdf original_size "M" Demo2.st_old_pdf))
  = (log Demo2.st_old_pdf
     ++ failures Demo2.w_nopdf original_size None
          ["/w/input/M/1.png"; "/w/input/M/2.png"])%list.
Proof.
  split; [vm_compute; reflexivity|].
  apply (assembler_failure_leaves_empty_file Demo2.w_nopdf original_size "M"
           Demo2.st_old_pdf Demo2.st_old_pdf ∅).
  - reflexivity.
  - exact Demo_wf_M.
  - vm_compute. reflexivity.
  - discriminate.
  - reflexivity.
  - reflexivity.
  - discriminate.
  - reflexivity.
Defined.

(** X20.  When every image of a folder fails, the folder is neither
    reported as skipped nor turned into a PDF: processing it returns, prints
    one line of failure for each image and leaves the output directory as it
    was. *)
Theorem all_failures_give_no_pdf (w : world) (pol : policy)
    (folder_name : string) (st st1 : state) (m : gmap string image)
    (files : list string) (target : option (Z * Z)) :
  isdir w (folder_path w folder_name) = true ->
  wf_listing (listdir w (folder_path w folder_name)) ->
  image_files w folder_name = Ok files -> files <> [] ->
  resolve_target w pol files st = (Ok target, st1) ->
  temp st = Some m ->
  staged_images w pol target files = [] ->
  fst (process_folder w pol folder_name st) = Ok tt /\
  output (snd (process_folder w pol folder_name st)) = output st /\
  log (snd (process_folder w pol folder_name st))
  = (log st ++ failures w pol target files)%list /\
  length (failures w pol target files) = length files /\
  ~ In (Skipped folder_name) (failures w pol target files).
Proof.
  intros Hdir Hwf Hfiles Hne Hres Hm Hst.
  pose proof (image_files_NoDup w folder_name files Hwf Hfiles) as Hnd.
  destruct (process_folder_staged w pol folder_name st st1 m files target
              Hdir Hfiles Hne Hres Hm Hnd) as (m' & _ & Heq).
  cbn zeta in Heq. rewrite Heq, Hst. clear Heq. cbn [fst snd output log].
  repeat split; [now apply staged_none_all_fail|].
  intros Hin. pose proof (failures_are_failed w pol target files) as Hall.
  rewrite List.Forall_forall in Hall.
  destruct (Hall _ Hin) as (p & e & Heq & _). discriminate.
Qed.

Lemma all_failures_give_no_pdf_witness :
  fst (process_folder Demo2.w_nosave original_size "M" Demo.st1) = Ok tt /\
  output (snd (process_folder Demo2.w_nosave original_size "M" Demo.st1))
  = output Demo.st1 /\
  log (snd (process_folder Demo2.w_nosave original_size "M" Demo.st1))
  = (log Demo.st1
     ++ failures Demo2.w_nosave original_size None
          ["/w/input/M/1.png"; "/w/input/M/2.png"])%list /\
  length (failures Demo2.w_nosave original_size None
            ["/w/input/M/1.png"; "/w/input/M/2.png"])
  = length ["/w/input/M/1.png"; "/w/input/M/2.png"] /\
  ~ In (Skipped "M")
       (failures Demo2.w_nosave original_size None
          ["/w/input/M/1.png"; "/w/input/M/2.png"]).
Proof.
  apply (all_failures_give_no_pdf Demo2.w_nosave original_size "M"
           Demo.st1 Demo.st1 ∅).
  - reflexivity.
  - exact Demo_wf_M.
  - vm_compute. reflexivity.
  - discriminate.
  - reflexivity.
  - reflexivity.
  - reflexivity.
Defined.

(** X21.  The [Image.open] calls of a folder: those that resolve the
    target size (one under [use_nth_image], one for each image under
    [max_resolution], none otherwise), followed by one for each image in the
    loop, in natural-sort order.  An image that was opened for the target
    size is opened again in the loop. *)
Theorem folder_opens_every_image (w : world) (pol : policy)
    (folder_name : string) (st st1 : state) (m : gmap string image)
    (files : list string) (target : option (Z * Z)) :
  isdir w (folder_path w folder_name) = true ->
  wf_listing (listdir w (folder_path w folder_name)) ->
  image_files w folder_name = Ok files -> files <> [] ->
  resolve_target w pol files st = (Ok target, st1) ->
  temp st = Some m ->
  opened (snd (process_folder w pol folder_name st))
  = (opened st ++ resolver_opens pol files ++ files)%list.
Proof.
  intros Hdir Hwf Hfiles Hne Hres Hm.
  pose proof (image_files_NoDup w folder_name files Hwf Hfiles) as Hnd.
  destruct (process_folder_staged w pol folder_name st st1 m files target
              Hdir Hfiles Hne Hres Hm Hnd) as (m' & _ & Heq).
  cbn zeta in Heq. rewrite Heq. clear Heq.
  rewrite (resolve_target_opened w pol files st st1 target Hres), <- app_assoc.
  destruct (staged_images w pol target files) as [|pg pages]; [reflexivity|].
  destruct (pdf_ok w (pg :: pages)); reflexivity.
Qed.

Lemma folder_opens_every_image_witness :
  opened (snd (process_folder Demo.w max_resolution "M" Demo.st1))
  = (opened Demo.st1
     ++ resolver_opens max_resolution ["/w/input/M/1.png"; "/w/input/M/2.png"]
     ++ ["/w/input/M/1.png"; "/w/input/M/2.png"])%list.
Proof.
  apply (folder_opens_every_image Demo.w max_resolution "M" Demo.st1
           (snd (resolve_target Demo.w max_resolution
                   ["/w/input/M/1.png"; "/w/input/M/2.png"] Demo.st1))
           ∅ _ (Some (300, 200))).
  - reflexivity.
  - exact Demo_wf_M.
  - vm_compute. reflexivity.
  - discriminate.
  - reflexivity.
  - reflexivity.
Defined.

(** X22.  Under [max_resolution] one image that cannot be decoded ends
    the folder with the exception of the imaging library before anything is
    staged: the staging directory, the output directory and the log are as
    they were. *)
Theorem undecodable_image_ends_max_resolution (w : world) (folder_name : string)
    (st : state) (files : list string) (f : string) :
  isdir w (folder_path w folder_name) = true ->
  image_files w folder_name = Ok files ->
  In f files -> is_ok (decoded w f) = false ->
  fst (process_folder w max_resolution folder_name st) = Raise ImageError /\
  temp (snd (process_folder w max_resolution folder_name st)) = temp st /\
  output (snd (process_folder w max_resolution folder_name st)) = output st /\
  log (snd (process_folder w max_resolution folder_name st)) = log st.
Proof.
  intros Hdir Hfiles Hin Hf.
  destruct (open_sizes_raise w files f Hin Hf st) as (st1 & Hs).
  destruct (open_sizes_frame w files st _ st1 Hs) as (Ht & Ho & Hl).
  assert (Hrun : process_folder w max_resolution folder_name st
                 = (Raise ImageError, st1)).
  { unfold process_folder. rewrite Hdir. cbn [negb].
    unfold bind at 1. unfold lift. rewrite Hfiles.
    destruct files as [|g files']; [destruct Hin|].
    unfold bind at 1. unfold resolve_target, bind at 1. now rewrite Hs. }
  rewrite Hrun. now repeat split.
Qed.

Lemma undecodable_image_ends_max_resolution_witness :
  fst (process_folder Demo.w max_resolution "A" Demo.st1) = Raise ImageError /\
  temp (snd (process_folder Demo.w max_resolution "A" Demo.st1)) = temp Demo.st1 /\
  output (snd (process_folder Demo.w max_resolution "A" Demo.st1)) = output Demo.st1 /\
  log (snd (process_folder Demo.w max_resolution "A" Demo.st1)) = log Demo.st1.
Proof.
  apply (undecodable_image_ends_max_resolution Demo.w "A" Demo.st1
           ["/w/input/A/p1.PNG"; "/w/input/A/p2.png"; "/w/input/A/p10.jpg"]
           "/w/input/A/p1.PNG").
  - reflexivity.
  - vm_compute. reflexivity.
  - now left.
  - reflexivity.
Defined.

(** X23.  For an image number of at least one, the target size is taken
    from the image at index [n - 1], or from the last image when the folder
    has fewer than [n] images; that image is opened once. *)
Theorem nth_image_is_clamped (w : world) (files : list string) (n : Z)
    (st : state) :
  files <> [] -> 1 <= n ->
  exists f,
    nth_error files (Z.to_nat (Z.min (n - 1) (Z.of_nat (length files) - 1))) = Some f /\
    (Z.of_nat (length files) <= n -> last files = Some f) /\
    resolve_target w (use_nth_image n) files st
    = (img <-- decoded w f ; Ok (Some (im_size img)), add_opened f st).
Proof.
  intros Hne Hn.
  destruct (resolve_nth_clamped w files n st Hne Hn) as (f & Hf & Hres).
  exists f. split; [exact Hf|]. split; [|exact Hres].
  intros Hlen.
  rewrite Z.min_r in Hf by lia.
  rewrite last_lookup.
  replace (Z.to_nat (Z.of_nat (length files) - 1)) with (Nat.pred (length files)) in Hf by lia.
  now rewrite nth_error_is_lookup in Hf.
Qed.

Lemma nth_image_is_clamped_witness :
  exists f,
    nth_error ["/w/input/M/1.png"; "/w/input/M/2.png"]
      (Z.to_nat (Z.min (5 - 1)
         (Z.of_nat (length ["/w/input/M/1.png"; "/w/input/M/2.png"]) - 1))) = Some f /\
    (Z.of_nat (length ["/w/input/M/1.png"; "/w/input/M/2.png"]) <= 5 ->
     last ["/w/input/M/1.png"; "/w/input/M/2.png"] = Some f) /\
    resolve_target Demo.w (use_nth_image 5) ["/w/input/M/1.png"; "/w/input/M/2.png"]
      Demo.st1
    = (img <-- decoded Demo.w f ; Ok (Some (im_size img)), add_opened f Demo.st1).
Proof.
  apply (nth_image_is_clamped Demo.w ["/w/input/M/1.png"; "/w/input/M/2.png"] 5
           Demo.st1); [discriminate|lia].
Defined.

(** ** The run (lines 56-149) *)

(** X24.  A run writes to the output directory under the names of the
    PDFs of the entries of [input/] only: every other file of the output
    directory is after the run what it was before, however the run ends. *)
Theorem run_writes_own_pdfs_only (w : world) (lines : list string) (st : state)
    (q : string) :
  (forall n, In n (listdir w (input_dir w)) -> q <> pdf_path w n) ->
  output (snd (process_images w lines st)) !! q = output st !! q.
Proof.
  intros Hq. unfold process_images, bind, lift, makedirs_temp, modify.
  destruct (get_user_choice lines) as [pol|e].
  - unfold try_finally, rmtree_temp, modify.
    match goal with
    | |- context [for_folders w pol ?names ?s] =>
        pose proof (for_folders_output_frame w pol names q Hq s) as Hf;
        destruct (for_folders w pol names s) as [r st1]
    end.
    simpl in Hf. destruct (temp st1); cbn [snd output set_temp];
      rewrite Hf; now destruct (temp st).
  - simpl. now destruct (temp st).
Qed.

Lemma run_writes_own_pdfs_only_witness :
  output (snd (process_images Demo.w ["6"] Demo2.st_old_pdf)) !! "/w/output/keep.pdf"
  = output Demo2.st_old_pdf !! "/w/output/keep.pdf".
Proof.
  apply (run_writes_own_pdfs_only Demo.w ["6"] Demo2.st_old_pdf "/w/output/keep.pdf").
  intros n Hn.
  change (listdir Demo.w (input_dir Demo.w))
    with ["A"; "B"; "E"; "G"; "M"; "S"; "notes.txt"] in Hn.
  repeat (destruct Hn as [<-|Hn]; [discriminate|]). destruct Hn.
Defined.

(** X25.  The run ends at the first folder that raises: the exception
    leaves [process_images], the folders after it are not taken up (the
    output directory and the log are those the failing folder left), and the
    staging directory is removed. *)
Theorem run_ends_at_first_error (w : world) (lines : list string) (pol : policy)
    (l1 l2 : list string) (folder_name : string) (st st1 st2 : state) (e : exn) :
  get_user_choice lines = Ok pol ->
  listdir w (input_dir w) = (l1 ++ folder_name :: l2)%list ->
  for_folders w pol l1 (snd (makedirs_temp st)) = (Ok tt, st1) ->
  process_folder w pol folder_name st1 = (Raise e, st2) ->
  fst (process_images w lines st) = Raise e /\
  output (snd (process_images w lines st)) = output st2 /\
  log (snd (process_images w lines st)) = log st2 /\
  temp (snd (process_images w lines st)) = None.
Proof.
  intros Hpol Hls Hl1 Hn.
  destruct (folder_reached_with_temp w lines pol l1 l2 folder_name st st1 Hpol Hls Hl1)
    as [_ Heq].
  split; [|split; [|split]]; [| | |now apply (process_images_cleanup w lines pol)].
  all: rewrite Heq; unfold try_finally, bind, rmtree_temp, modify; rewrite Hn;
    cbn [fst snd]; destruct (temp st2); reflexivity.
Qed.

Lemma run_ends_at_first_error_witness :
  fst (process_images Demo.w ["2"] Demo.st0) = Raise ImageError /\
  output (snd (process_images Demo.w ["2"] Demo.st0))
  = output (snd (process_folder Demo.w max_resolution "A" Demo.st1)) /\
  log (snd (process_images Demo.w ["2"] Demo.st0))
  = log (snd (process_folder Demo.w max_resolution "A" Demo.st1)) /\
  temp (snd (process_images Demo.w ["2"] Demo.st0)) = None.
Proof.
  apply (run_ends_at_first_error Demo.w ["2"] max_resolution []
           ["B"; "E"; "G"; "M"; "S"; "notes.txt"] "A" Demo.st0 Demo.st1
           (snd (process_folder Demo.w max_resolution "A" Demo.st1)) ImageError).
  - reflexivity.
  - reflexivity.
  - reflexivity.
  - vm_compute. reflexivity.
Defined.

(** X26.  Entries of [input/] that are no directories are passed over:
    when [input/] holds no directory, the run returns after the prompt and
    opens no image, prints nothing and writes nothing. *)
Theorem run_without_folders_does_nothing (w : world) (lines : list string)
    (pol : policy) (st : state) :
  get_user_choice lines = Ok pol ->
  Forall (fun n => isdir w (folder_path w n) = false) (listdir w (input_dir w)) ->
  fst (process_images w lines st) = Ok tt /\
  output (snd (process_images w lines st)) = output st /\
  log (snd (process_images w lines st)) = log st /\
  opened (snd (process_images w lines st)) = opened st.
Proof.
  intros Hpol Hflat.
  assert (Hloop : forall s, for_folders w pol (listdir w (input_dir w)) s = (Ok tt, s)).
  { induction Hflat as [|n names Hn _ IH]; intros s; [reflexivity|].
    cbn [for_folders]. unfold bind, process_folder. rewrite Hn. cbn [negb].
    unfold ret. apply IH. }
  unfold process_images, bind, lift, makedirs_temp, modify. rewrite Hpol.
  unfold try_finally, rmtree_temp, modify. rewrite Hloop.
  destruct (temp st) eqn:Ht; cbn [fst snd temp set_temp]; rewrite ?Ht;
    now repeat split.
Qed.

Lemma run_without_folders_does_nothing_witness :
  fst (process_images Demo2.w_flat ["2"] Demo.st0) = Ok tt /\
  output (snd (process_images Demo2.w_flat ["2"] Demo.st0)) = output Demo.st0 /\
  log (snd (process_images Demo2.w_flat ["2"] Demo.st0)) = log Demo.st0 /\
  opened (snd (process_images Demo2.w_flat ["2"] Demo.st0)) = opened Demo.st0.
Proof.
  apply (run_without_folders_does_nothing Demo2.w_flat ["2"] max_resolution Demo.st0).
  - reflexivity.
  - change (listdir Demo2.w_flat (input_dir Demo2.w_flat))
      with ["A"; "B"; "E"; "G"; "M"; "S"; "notes.txt"].
    repeat constructor.
Defined.
